(** * op: operator overloading through tagged templates

    A shallow embedding of [src/index.ts] (the version with tagged operator
    specs, unary operators and bracket/call forms): the operator table
    ([processOps]), the lexer ([lex], [next]), the precedence parser
    ([parsers]) and the evaluator ([evalOps], [toErrorDisplay]).

    The embedding is parametric in the host: composite values, their
    classes, the methods they expose and the number primitives of the host
    language are the fields of the class [Host]. *)

From Stdlib Require Import String Ascii Bool Arith Lia ZArith QArith DecimalString List.
Import ListNotations.
Open Scope string_scope.
Open Scope nat_scope.
Open Scope list_scope.
Set Warnings "-register-all".

(** ** Results *)

(** What a call of this library produces: a value, a thrown [Error] with its
    message, no answer within the fuel given to the recursive descent, or a
    behaviour of the host language that lies outside the modelled fragment
    (an argument array flowing where a single operand is expected). *)
Inductive result (A : Type) : Type :=
| Ok (a : A)
| Throw (msg : string)
| OutOfFuel
| Unmodelled.
Arguments Ok {A} a.
Arguments Throw {A} msg.
Arguments OutOfFuel {A}.
Arguments Unmodelled {A}.

Definition bind {A B : Type} (r : result A) (k : A -> result B) : result B :=
  match r with
  | Ok a => k a
  | Throw msg => Throw msg
  | OutOfFuel => OutOfFuel
  | Unmodelled => Unmodelled
  end.

Notation "'let*' x ':=' r 'in' k" := (bind r (fun x => k))
  (at level 10, x binder, r at level 100, k at level 200).

(** What a host method does when called: it returns or it throws. *)
Inductive outcome (V : Type) : Type :=
| Returns (v : V)
| Throws (msg : string).
Arguments Returns {V} v.
Arguments Throws {V} msg.

(** ** Host values *)

(** [typeof v]: ['undefined'], ['number'], ['string'], ['boolean'] or
    ['object'].  [null], functions, symbols and arrays are not modelled as
    hole values. *)
Inductive value (num obj : Type) : Type :=
| VUndef
| VNum (n : num)
| VStr (s : string)
| VBool (b : bool)
| VObj (o : obj).
Arguments VUndef {num obj}.
Arguments VNum {num obj} n.
Arguments VStr {num obj} s.
Arguments VBool {num obj} b.
Arguments VObj {num obj} o.

Class Host : Type := {
  num : Type;
  obj : Type;
  class : Type;
  (** [isNumber] of [utils.js], which is not part of the sources at hand:
      taken as a parameter. *)
  isNumber : ascii -> bool;
  (** [Number(str)], [n.toString()] and the arithmetic of the host. *)
  Number : string -> num;
  num_toString : num -> string;
  num_add : num -> num -> num;
  num_sub : num -> num -> num;
  num_mul : num -> num -> num;
  num_div : num -> num -> num;
  (** [o.constructor] *)
  constructor : obj -> class;
  (** [name in o] and [o[name](...args)] *)
  has_method : obj -> string -> bool;
  call_method : obj -> string -> list (value num obj) -> outcome (value num obj);
  (** [name in C] and [C[name](left, right)] *)
  has_static : class -> string -> bool;
  call_static : class -> string -> list (value num obj) -> outcome (value num obj);
  (** [C[name](callee, args)]: the evaluated arguments are handed over as
      one array. *)
  call_static_args :
    class -> string -> value num obj -> list (value num obj) -> outcome (value num obj);
  (** [Symbol.toPrimitive in o] with the text it yields; an overridden
      [toString] with its text; [C.name]. *)
  toPrimitive : obj -> option string;
  custom_toString : obj -> option string;
  class_name : class -> string
}.

(** ** Strings as the source indexes them *)

Fixpoint string_drop (n : nat) (s : string) : string :=
  match n, s with
  | 0, _ => s
  | S n', String _ s' => string_drop n' s'
  | S _, EmptyString => EmptyString
  end.

(** [s.startsWith(sym, pos)] *)
Definition startsWith (s sym : string) (pos : nat) : bool :=
  String.prefix sym (string_drop pos s).

(** [c.trim() === ''] for a one-character string [c] (ASCII white space and
    line terminators). *)
Definition is_space (c : ascii) : bool :=
  let n := nat_of_ascii c in
  (n =? 32) || ((9 <=? n) && (n <=? 13)).

Definition char_str (c : ascii) : string := String c EmptyString.

(** ** Operator specs and the operator table *)

Inductive OpSpec : Type :=
| UnaryOpSpec (op : string)                (* { type: 'un', op } *)
| BinaryOpSpec (op : string)               (* { type: 'bin', op } *)
| FunctionOpSpec (part0 part1 : string).   (* { type: 'fn', parts } *)

Definition is_un (o : OpSpec) : bool :=
  match o with UnaryOpSpec _ => true | _ => false end.
Definition is_bin (o : OpSpec) : bool :=
  match o with BinaryOpSpec _ => true | _ => false end.
Definition is_fn (o : OpSpec) : bool :=
  match o with FunctionOpSpec _ _ => true | _ => false end.

(** [op.type === 'un' && op.op === raw] and its binary twin. *)
Definition is_un_named (raw : string) (o : OpSpec) : bool :=
  match o with UnaryOpSpec s => String.eqb s raw | _ => false end.
Definition is_bin_named (raw : string) (o : OpSpec) : bool :=
  match o with BinaryOpSpec s => String.eqb s raw | _ => false end.

(** [op.type === 'fn' ? op.parts.includes(sym) : op.op === sym] *)
Definition mentions (sym : string) (o : OpSpec) : bool :=
  match o with
  | FunctionOpSpec p0 p1 => String.eqb p0 sym || String.eqb p1 sym
  | UnaryOpSpec s | BinaryOpSpec s => String.eqb s sym
  end.

Definition normalize (op : string + OpSpec) : OpSpec :=
  match op with
  | inl s => BinaryOpSpec s
  | inr o => o
  end.

(** [out.at(-1).push(o)] *)
Fixpoint push_last (out : list (list OpSpec)) (o : OpSpec) : list (list OpSpec) :=
  match out with
  | [] => []
  | [tier] => [tier ++ [o]]
  | tier :: rest => tier :: push_last rest o
  end.

Definition push_unless_mentioned (all : list OpSpec) (sym : string)
    (out : list (list OpSpec)) : list (list OpSpec) :=
  if negb (existsb (mentions sym) all) then push_last out (UnaryOpSpec sym) else out.

Definition processOps (ops : list (list (string + OpSpec)))
    : result (list (list OpSpec)) :=
  if (length ops =? 0) || negb (existsb (fun tier => negb (length tier =? 0)) ops)
  then Throw "No operators supplied"
  else
    let out := map (map normalize) ops in
    let all := concat out in
    let out := push_unless_mentioned all "(" out in
    let out := push_unless_mentioned all ")" out in
    let out := push_unless_mentioned all "," out in
    Ok out.

Definition opName (op : OpSpec) : string :=
  match op with
  | FunctionOpSpec p0 p1 => (p0 ++ p1)%string
  | UnaryOpSpec s | BinaryOpSpec s => s
  end.

(** The table of the exported [op] tag, before [processOps]. *)
Definition default_operators : list (list (string + OpSpec)) :=
  [ [inl "*"; inl "/"];
    [inl "+"; inl "-"];
    [inl "=="; inl "!="];
    [inr (FunctionOpSpec "[" "]"); inr (FunctionOpSpec "(" ")"); inr (UnaryOpSpec "-")] ].

(** ** Tokens, syntax trees and the evaluator *)

Section Evaluator.
Context {H : Host}.

#[local] Abbreviation val := (value num obj).

Inductive Tok : Type :=
| LitTok (v : val)                      (* { type: 'lit', val } *)
| OpTok (spec : OpSpec) (raw : string). (* { type: 'op', [OP]: spec, raw } *)

(** A node [{ [OP], left, right }]: [left] is [null] under a unary operator
    and [right] is an array in the bracket/call form. *)
Inductive ast : Type :=
| Lit (v : val)
| Node (op : OpSpec) (left : option ast) (right : ast)
| NodeArgs (op : OpSpec) (left : ast) (right : list ast).

Definition toErrorDisplay (v : val) : string :=
  match v with
  | VObj o =>
      match toPrimitive o with
      | Some s => s
      | None =>
          match custom_toString o with
          | Some s => s
          | None => class_name (constructor o)
          end
      end
  | VUndef => "undefined"
  | VNum n => num_toString n
  | VStr s => s
  | VBool true => "true"
  | VBool false => "false"
  end.

(** A call whose exception is left to propagate. *)
Definition call (o : outcome val) : result val :=
  match o with
  | Returns v => Ok v
  | Throws msg => Throw msg
  end.

(** [try { return o } catch (e) {}], followed by [k]. *)
Definition try_catch (o : outcome val) (k : result val) : result val :=
  match o with
  | Returns v => Ok v
  | Throws _ => k
  end.

(** [if (op in C) { try { return C[op](left, right) } catch (e) {} }] *)
Definition try_static (C : class) (op : string) (args : list val)
    (k : result val) : result val :=
  if has_static C op then try_catch (call_static C op args) k else k.

(** The same attempt on the type of the right operand, when that operand
    is composite. *)
Definition try_right_static (op : string) (left right : val)
    (k : result val) : result val :=
  match right with
  | VObj r => try_static (constructor r) op [left; right] k
  | _ => k
  end.

(** The two guarded attempts on a composite right operand that follow a
    failed builtin. *)
Definition right_fallbacks (op : string) (left right : val)
    (k : result val) : result val :=
  match right with
  | VObj r =>
      let k' := try_right_static op left right k in
      if has_method r op then try_catch (call_method r op [left]) k' else k'
  | _ => k
  end.

Definition is_str_or_num (v : val) : bool :=
  match v with VStr _ | VNum _ => true | _ => false end.

(** [left + right] of the host on strings and numbers. *)
Definition host_plus (left right : val) : val :=
  match left, right with
  | VNum a, VNum b => VNum (num_add a b)
  | VNum a, VStr b => VStr (num_toString a ++ b)%string
  | VStr a, VNum b => VStr (a ++ num_toString b)%string
  | VStr a, VStr b => VStr (a ++ b)%string
  | _, _ => VUndef
  end.

Definition arith (sym : string) (a b : num) : num :=
  if String.eqb sym "-" then num_sub a b
  else if String.eqb sym "*" then num_mul a b
  else num_div a b.

Definition is_arith_symbol (sym : string) : bool :=
  String.eqb sym "-" || String.eqb sym "*" || String.eqb sym "/".

(** The [bin] branch of [evalOps] once both operands are evaluated; [sym] is
    [node[OP].op]. *)
Definition eval_binary (sym : string) (left right : val) : result val :=
  let op := ("operator" ++ sym)%string in
  match left with
  | VObj l =>
      if has_method l op then call (call_method l op [right])
      else
        try_static (constructor l) op [left; right]
          (try_right_static op left right
             (Throw ("Operator error: " ++ op ++ " is not a callable on left operand "
                     ++ toErrorDisplay left
                     ++ " or a static function on either operand's types")))
  | _ =>
      if String.eqb sym "+" then
        if is_str_or_num left && is_str_or_num right then Ok (host_plus left right)
        else
          right_fallbacks op left right
            (Throw ("Operator error: cannot evaluate " ++ toErrorDisplay left
                    ++ " + " ++ toErrorDisplay right))
      else if is_arith_symbol sym then
        match left, right with
        | VNum a, VNum b => Ok (VNum (arith sym a b))
        | _, _ =>
            right_fallbacks op left right
              (Throw ("Operator error: cannot evaluate " ++ toErrorDisplay left
                      ++ " " ++ sym ++ " " ++ toErrorDisplay right))
        end
      else
        Throw ("Operator error: " ++ op
               ++ " is not a builtin or a callable on left operand "
               ++ toErrorDisplay left)
  end%string.

(** The [un] branch. *)
Definition eval_unary (sym : string) (right : val) : result val :=
  let op := ("operator" ++ sym)%string in
  match right with
  | VObj r =>
      if has_method r op then call (call_method r op [])
      else Throw ("Operator error: " ++ op ++ " is not a callable on "
                  ++ toErrorDisplay right)%string
  | _ => Throw ("Operator error: " ++ op ++ " is not a callable on "
                ++ toErrorDisplay right)%string
  end.

(** The bracket/call branch; [name] is [opName(node[OP])]. *)
Definition eval_call (name : string) (left : val) (args : list val) : result val :=
  let op := ("operator" ++ name)%string in
  let fail :=
    Throw ("Operator error: " ++ op ++ " is not a callable on left operand "
           ++ toErrorDisplay left ++ " or a static function on its type")%string in
  match left with
  | VObj l =>
      if has_method l op then call (call_method l op args)
      else if has_static (constructor l) op
           then try_catch (call_static_args (constructor l) op left args) fail
           else fail
  | VUndef =>
      Throw "TypeError: Cannot read properties of undefined (reading 'constructor')"
  | _ => fail   (* the builtin constructors expose no operator functions *)
  end.

Fixpoint evalOps (node : ast) : result val :=
  match node with
  | Lit v => Ok v
  | Node (BinaryOpSpec sym) (Some node_left) node_right =>
      let* l := evalOps node_left in
      let* r := evalOps node_right in
      eval_binary sym l r
  | Node (UnaryOpSpec sym) _ node_right =>
      let* r := evalOps node_right in
      eval_unary sym r
  | NodeArgs (FunctionOpSpec p0 p1) node_left node_right =>
      let* l := evalOps node_left in
      let* args :=
        (fix eval_all (nodes : list ast) : result (list val) :=
           match nodes with
           | [] => Ok []
           | n :: rest =>
               let* v := evalOps n in
               let* vs := eval_all rest in
               Ok (v :: vs)
           end) node_right in
      eval_call (opName (FunctionOpSpec p0 p1)) l args
  (* a spec whose type does not fit the shape of its node *)
  | Node (BinaryOpSpec _) None _ => Unmodelled
  | Node (FunctionOpSpec _ _) _ _ => Unmodelled
  | NodeArgs _ _ _ => Unmodelled
  end.

End Evaluator.

(** ** The tag function: lexer and parser over one template *)

Section Tag.
Context {H : Host}.

#[local] Abbreviation val := (value num obj).

(** [ops] is the processed table of [makeOp]; [strs] and [vals] are the
    fragments and the holes of the template literal. *)
Variable ops : list (list OpSpec).
Variable strs : list string.
Variable vals : list val.

(** [strIdx] and [charIdx] *)
Record cursor : Type := { strIdx : nat; charIdx : nat }.

Definition quote1 : ascii := ascii_of_nat 39.
Definition quote2 : ascii := ascii_of_nat 34.

(** [while (s[charIdx] !== undefined && s[charIdx].trim() === '') charIdx++],
    on the text from [charIdx] on. *)
Fixpoint skip_space (rest : string) (charIdx : nat) : nat :=
  match rest with
  | String ch rest' => if is_space ch then skip_space rest' (S charIdx) else charIdx
  | EmptyString => charIdx
  end.

(** The [for (const o of ops.flat())] scan with its [break]s. *)
Fixpoint find_op (specs : list OpSpec) (s : string) (charIdx : nat)
    : option (OpSpec * string) :=
  match specs with
  | [] => None
  | o :: rest =>
      match o with
      | FunctionOpSpec p0 p1 =>
          if startsWith s p0 charIdx then Some (o, p0)
          else if startsWith s p1 charIdx then Some (o, p1)
          else find_op rest s charIdx
      | UnaryOpSpec sym | BinaryOpSpec sym =>
          if startsWith s sym charIdx then Some (o, sym)
          else find_op rest s charIdx
      end
  end.

(** The body of a string literal, from the character after the opening
    quote. *)
Fixpoint scan_string (quote : ascii) (rest : string) : result string :=
  match rest with
  | EmptyString => Throw "Syntax error: unterminated string literal"
  | String ch rest' =>
      if Ascii.eqb ch quote then Ok EmptyString
      else let* str := scan_string quote rest' in Ok (String ch str)
  end.

(** The run of numeric characters from the cursor on. *)
Fixpoint scan_number (rest : string) : string :=
  match rest with
  | String ch rest' =>
      if negb (is_space ch) && isNumber ch then String ch (scan_number rest')
      else EmptyString
  | EmptyString => EmptyString
  end.

(** [lex()]: the token at the cursor, with the cursor as [lex] leaves it
    (white space skipped; the scans of literals put [charIdx] back). *)
Definition lex (c : cursor) : result (Tok * cursor) :=
  match nth_error strs (strIdx c) with
  | None => Ok (LitTok VUndef, c)
  | Some s =>
      let ci := skip_space (string_drop (charIdx c) s) (charIdx c) in
      let c' := {| strIdx := strIdx c; charIdx := ci |} in
      match String.get ci s with
      | None => Ok (LitTok (nth (strIdx c) vals VUndef), c')
      | Some ch =>
          match find_op (concat ops) s ci with
          | Some (o, raw) => Ok (OpTok o raw, c')
          | None =>
              if Ascii.eqb ch quote1 || Ascii.eqb ch quote2 then
                match string_drop (S ci) s with
                | EmptyString => Throw "Syntax error: string literal expected"
                | rest =>
                    let* str := scan_string ch rest in
                    Ok (LitTok (VStr str), c')
                end
              else if isNumber ch then
                Ok (LitTok (VNum (Number (scan_number (string_drop ci s)))), c')
              else
                Throw ("Syntax error: invalid token '" ++ char_str ch ++ "'")%string
          end
      end
  end.

(** [consumedTok.val.toString().length] and its string twin. *)
Definition lit_width (v : val) : result nat :=
  match v with
  | VStr str => Ok (String.length str + 2)
  | VNum n => Ok (String.length (num_toString n))
  | VBool true => Ok 4
  | VBool false => Ok 5
  | VObj o =>
      match custom_toString o with
      | Some s => Ok (String.length s)
      | None => Ok (String.length "[object Object]")
      end
  | VUndef => Throw "TypeError: Cannot read properties of undefined (reading 'toString')"
  end.

(** [next()] *)
Definition next (c : cursor) : result cursor :=
  match nth_error strs (strIdx c) with
  | None => Ok c
  | Some s =>
      match String.get (charIdx c) s with
      | None => Ok {| strIdx := S (strIdx c); charIdx := 0 |}
      | Some _ =>
          let* '(consumedTok, c') := lex c in
          match consumedTok with
          | OpTok _ raw =>
              Ok {| strIdx := strIdx c'; charIdx := charIdx c' + String.length raw |}
          | LitTok v =>
              let* w := lit_width v in
              Ok {| strIdx := strIdx c'; charIdx := charIdx c' + w |}
          end
      end
  end.

(** An entry of the [clauses] array of a tier parser. *)
Inductive clause : Type :=
| CTree (t : ast)
| CSpec (o : OpSpec).

(** [while (clauses.length > 1) { shift three, unshift their node }] and
    [return clauses[0]]; every turn shortens the array by two, so the length
    of the array bounds the turns. *)
Fixpoint fold_clauses (turns : nat) (clauses : list clause) : result ast :=
  match clauses with
  | [CTree t] => Ok t
  | CTree l :: CSpec o :: CTree r :: rest =>
      match turns with
      | 0 => OutOfFuel
      | S turns' => fold_clauses turns' (CTree (Node o (Some l) r) :: rest)
      end
  | _ => Unmodelled
  end.

(** The loop of a tier parser; [operand] is [parsers[i]], [tok] the token
    last read and [c] the cursor after reading it. *)
Fixpoint tier_loop (fuel : nat) (operand : cursor -> result (ast * cursor))
    (tier : list OpSpec) (clauses : list clause) (tok : Tok) (c : cursor)
    : result (list clause * cursor) :=
  match tok with
  | OpTok spec raw =>
      if existsb (is_bin_named raw) tier then
        match fuel with
        | 0 => OutOfFuel
        | S fuel' =>
            let* c := next c in
            let* '(r, c) := operand c in
            let* '(tok', c) := lex c in
            tier_loop fuel' operand tier (clauses ++ [CSpec spec; CTree r]) tok' c
        end
      else Ok (clauses, c)
  | LitTok _ => Ok (clauses, c)
  end.

Definition is_closing (closing : string) (tok : Tok) : bool :=
  match tok with
  | OpTok _ raw => String.eqb raw closing
  | LitTok _ => false
  end.

(** The loop over the arguments of a bracket/call form; [operand] is
    [parsers.at(-1)]. It hands back the arguments with the token that
    ended the loop. *)
Fixpoint args_loop (fuel : nat) (operand : cursor -> result (ast * cursor))
    (closing : string) (args : list ast) (nextTok : Tok) (c : cursor)
    : result (list ast * Tok * cursor) :=
  if is_closing closing nextTok then Ok (args, nextTok, c)
  else
    match fuel with
    | 0 => OutOfFuel
    | S fuel' =>
        let* '(arg, c) := operand c in
        let args := args ++ [arg] in
        let* '(nextTok, c) := lex c in
        match nextTok with
        | OpTok spec raw =>
            if String.eqb raw "," then
              let* c := next c in
              let* '(nextTok, c) := lex c in
              args_loop fuel' operand closing args nextTok c
            else if negb (String.eqb raw closing) && negb (is_un spec)
                    && negb (String.eqb raw "(") then
              Throw ("Syntax error: expected either ',' or '" ++ closing
                     ++ "', got '" ++ raw ++ "'")%string
            else if String.eqb raw closing then Ok (args, nextTok, c)
            else args_loop fuel' operand closing args nextTok c
        | LitTok _ =>
            Throw ("Syntax error: expected '" ++ closing ++ "'")%string
        end
    end.

(** [parsers.at(-1)] is the parser of the last tier. *)
Definition top : nat := length ops.

(** [parsers[i]()]: [parsers[0]] reads a primary, [parsers[i + 1]] a chain
    of the operators of [ops[i]] over operands read by [parsers[i]]. *)
Fixpoint parsers (fuel : nat) (i : nat) (c : cursor) {struct fuel}
    : result (ast * cursor) :=
  match fuel with
  | 0 => OutOfFuel
  | S fuel' =>
      match i with
      | 0 =>
          let* '(tok, c) := lex c in
          match tok with
          | OpTok spec raw =>
              if String.eqb raw "(" then
                let* c := next c in
                let* '(expr, c) := parsers fuel' top c in
                let* '(cp, c) := lex c in
                if is_closing ")" cp then
                  let* c := next c in
                  Ok (expr, c)
                else Throw "Syntax error: unterminated '('"
              else if is_un spec || existsb (is_un_named raw) (concat ops) then
                let* c := next c in
                let* '(expr, c) := parsers fuel' top c in
                let* un :=
                  (if is_un spec then Ok spec
                   else match find (is_un_named raw) (concat ops) with
                        | Some o => Ok o
                        | None => Unmodelled
                        end) in
                Ok (Node un None expr, c)
              else Throw "Syntax error: expected value"
          | LitTok v =>
              let* c := next c in
              match v with
              | VUndef => Throw "Syntax error: expected value"
              | _ =>
                  let* '(nextTok, c) := lex c in
                  match nextTok with
                  | OpTok (FunctionOpSpec p0 p1) raw =>
                      if String.eqb raw p0 then
                        let* c := next c in
                        let closing := p1 in
                        let* '(nextTok, c) := lex c in
                        let* '(args, nextTok, c) :=
                          args_loop fuel' (parsers fuel' top) closing [] nextTok c in
                        match nextTok with
                        | OpTok spec _ => Ok (NodeArgs spec (Lit v) args, c)
                        | LitTok _ => Unmodelled
                        end
                      else Ok (Lit v, c)
                  | _ => Ok (Lit v, c)
                  end
              end
          end
      | S j =>
          let tier := nth j ops [] in
          let* '(l, c) := parsers fuel' j c in
          let* '(tok, c) := lex c in
          match tok with
          | LitTok VUndef =>
              let* c := next c in
              Ok (l, c)
          | LitTok _ => Throw "Syntax error: expected operator"
          | OpTok _ _ =>
              let* '(clauses, c) :=
                tier_loop fuel' (parsers fuel' j) tier [CTree l] tok c in
              let* tree := fold_clauses (length clauses) clauses in
              Ok (tree, c)
          end
      end
  end.

(** The tag itself: [evalOps(parsers.at(-1)())] from the start of the
    template. *)
Definition op (fuel : nat) : result val :=
  let* '(tree, _) := parsers fuel top {| strIdx := 0; charIdx := 0 |} in
  evalOps tree.

End Tag.

(** [makeOp(operators)(strs, ...vals)] *)
Definition makeOp {H : Host} (operators : list (list (string + OpSpec)))
    (fuel : nat) (strs : list string) (vals : list (value num obj))
    : result (value num obj) :=
  let* ops := processOps operators in
  op ops strs vals fuel.

(** ** A concrete host *)

(** The classes of the repository's test suite, cut down to the operators
    the statements below are tried on. Numbers are exact rationals standing
    in for doubles; [None] stands for the doubles that are not finite. *)
Module Demo.

Definition dnum : Type := option Q.

Definition lift2 (f : Q -> Q -> Q) (a b : dnum) : dnum :=
  match a, b with
  | Some x, Some y => Some (Qred (f x y))
  | _, _ => None
  end.

Definition ddiv (a b : dnum) : dnum :=
  match a, b with
  | Some x, Some y => if Qeq_bool y 0 then None else Some (Qred (Qdiv x y))
  | _, _ => None
  end.

Definition is_digit (ch : ascii) : bool :=
  let n := nat_of_ascii ch in (48 <=? n) && (n <=? 57).

Definition is_dot (ch : ascii) : bool := nat_of_ascii ch =? 46.

(** Modelled from the spec: [isNumber] of the missing [utils.js], which the
    spec describes as "digit or decimal point". *)
Definition demo_isNumber (ch : ascii) : bool := is_digit ch || is_dot ch.

(** The digits of [s] as a number over [10 ^ length s]; [None] on any other
    character. *)
Fixpoint digits (s : string) (acc : Z) : option Z :=
  match s with
  | EmptyString => Some acc
  | String ch rest =>
      if is_digit ch
      then digits rest (10 * acc + Z.of_nat (nat_of_ascii ch - 48))%Z
      else None
  end.

Fixpoint split_dot (s : string) : string * option string :=
  match s with
  | EmptyString => (EmptyString, None)
  | String ch rest =>
      if is_dot ch then (EmptyString, Some rest)
      else let '(a, b) := split_dot rest in (String ch a, b)
  end.

(** [Number(str)] on a run of digits and dots. *)
Definition demo_Number (s : string) : dnum :=
  match split_dot s with
  | (whole, None) =>
      match whole with
      | EmptyString => Some 0%Q
      | _ => option_map inject_Z (digits whole 0)
      end
  | (whole, Some frac) =>
      match whole, frac with
      | EmptyString, EmptyString => None
      | _, _ =>
          match digits whole 0, digits frac 0 with
          | Some w, Some f =>
              Some (Qred (inject_Z w + (f # Pos.of_nat (10 ^ String.length frac)))%Q)
          | _, _ => None
          end
      end
  end.

Definition Z_to_string (z : Z) : string :=
  DecimalString.NilZero.string_of_int (Z.to_int z).

(** The decimals of [r / d] for [0 <= r < d], at most [n] of them. *)
Fixpoint decimals (n : nat) (r d : Z) : string :=
  match n with
  | 0 => EmptyString
  | S n' =>
      if (r =? 0)%Z then EmptyString
      else (Z_to_string (10 * r / d) ++ decimals n' (10 * r mod d) d)%string
  end.

(** [n.toString()] *)
Definition demo_toString (n : dnum) : string :=
  match n with
  | None => "NaN"
  | Some q =>
      let q := Qred q in
      let d := Zpos (Qden q) in
      if (d =? 1)%Z then Z_to_string (Qnum q)
      else
        let a := Z.abs (Qnum q) in
        ((if (Qnum q <? 0)%Z then "-" else "") ++ Z_to_string (a / d) ++ "."
         ++ decimals 17 (a mod d) d)%string
  end.

Inductive demo_class : Type := Vector | Vec | Point | Matrix | Fn | Map.

Record demo_obj : Type := {
  cls : demo_class;
  cols : nat;
  elems : list dnum
}.

Definition dval : Type := value dnum demo_obj.

Definition mk (C : demo_class) (es : list Z) : demo_obj :=
  {| cls := C; cols := length es; elems := map (fun z => Some (inject_Z z)) es |}.

Definition matrix (m : nat) (es : list Z) : demo_obj :=
  {| cls := Matrix; cols := m; elems := map (fun z => Some (inject_Z z)) es |}.

Fixpoint zip_with (f : dnum -> dnum -> dnum) (xs ys : list dnum) : list dnum :=
  match xs, ys with
  | x :: xs', y :: ys' => f x y :: zip_with f xs' ys'
  | _, _ => []
  end.

Definition vector (es : list dnum) : dval :=
  VObj {| cls := Vector; cols := length es; elems := es |}.

Definition as_index (n : dnum) : option nat :=
  match n with
  | Some q => if (Zpos (Qden (Qred q)) =? 1)%Z then Some (Z.to_nat (Qnum (Qred q))) else None
  | None => None
  end.

Definition demo_has_method (o : demo_obj) (name : string) : bool :=
  match cls o with
  | Vector | Vec => String.eqb name "operator+" || String.eqb name "operator-"
  | Matrix => String.eqb name "operator[]"
  | Fn => String.eqb name "operator()"
  | Point | Map => false
  end.

Definition demo_call_method (o : demo_obj) (name : string) (args : list dval)
    : outcome dval :=
  match cls o, args with
  | (Vector | Vec), [VObj other] =>
      if negb (length (elems other) =? length (elems o)) then
        Throws "Incompatible vectors for addition"
      else if String.eqb name "operator+" then
        Returns (vector (zip_with (lift2 Qplus) (elems o) (elems other)))
      else if String.eqb name "operator-" then
        Returns (vector (zip_with (lift2 Qminus) (elems o) (elems other)))
      else Throws "TypeError: not a function"
  | (Vector | Vec), [] =>
      if String.eqb name "operator-" then
        Returns (vector (map (lift2 Qminus (Some 0%Q)) (elems o)))
      else Throws "TypeError: Cannot read properties of undefined"
  | Matrix, [VNum i; VNum j] =>
      if String.eqb name "operator[]" then
        match as_index i, as_index j with
        | Some i, Some j => Returns (nth (i * cols o + j) (map VNum (elems o)) VUndef)
        | _, _ => Returns VUndef
        end
      else Throws "TypeError: not a function"
  | Fn, _ =>
      if String.eqb name "operator()" then
        Returns (VNum (Some (inject_Z (Z.of_nat (length args)))))
      else Throws "TypeError: not a function"
  | _, _ => Throws "TypeError: Cannot read properties of undefined"
  end.

Definition demo_has_static (C : demo_class) (name : string) : bool :=
  match C with
  | Point | Vec => String.eqb name "operator+"
  | _ => false
  end.

(** [Point['operator+'](other: number, pt: Point)] and
    [Vec['operator+'](other: Point, vec: Vec)] of the tests. *)
Definition demo_call_static (C : demo_class) (name : string) (args : list dval)
    : outcome dval :=
  match C, args with
  | Point, [other; VObj pt] =>
      if negb (String.eqb name "operator+") then Throws "TypeError: not a function"
      else
        match cls pt, other with
        | Point, VNum n =>
            Returns (VObj {| cls := Point; cols := cols pt;
                             elems := map (lift2 Qplus n) (elems pt) |})
        | Point, _ => Throws "Not number on LHS"
        | _, _ => Throws "Not point on RHS"
        end
  | Point, _ => Throws "Not point on RHS"
  | Vec, [VObj other; VObj vec] =>
      if negb (String.eqb name "operator+") then Throws "TypeError: not a function"
      else demo_call_method vec "operator+" [vector (elems other ++ [Some 0%Q])]
  | _, _ => Throws "TypeError: not a function"
  end.

#[export] Instance demo_host : Host := {|
  num := dnum;
  obj := demo_obj;
  class := demo_class;
  isNumber := demo_isNumber;
  Number := demo_Number;
  num_toString := demo_toString;
  num_add := lift2 Qplus;
  num_sub := lift2 Qminus;
  num_mul := lift2 Qmult;
  num_div := ddiv;
  constructor := cls;
  has_method := demo_has_method;
  call_method := demo_call_method;
  has_static := demo_has_static;
  call_static := demo_call_static;
  call_static_args := fun _ _ _ _ => Throws "TypeError: not a function";
  toPrimitive := fun _ => None;
  custom_toString := fun _ => None;
  class_name := fun C =>
    match C with
    | Vector => "Vector" | Vec => "Vec" | Point => "Point" | Matrix => "Matrix"
    | Fn => "Fn" | Map => "Map"
    end
|}.

(** Values to try the statements on. *)
Definition point_3_4 : dval := VObj (mk Point [3; 4]%Z).
Definition vector_1_2 : dval := VObj (mk Vector [1; 2]%Z).
Definition vec_1_2_3 : dval := VObj (mk Vec [1; 2; 3]%Z).
Definition vector_2_3_4 : dval := VObj (mk Vector [2; 3; 4]%Z).
Definition matrix_2_3 : dval := VObj (matrix 3 [0; 1; 2; 1; 2; 3]%Z).
Definition number (z : Z) : dval := VNum (Some (inject_Z z)).

End Demo.

(** * Vocabulary of the statements *)

(** ** The operator table *)

Definition structural_specs : list OpSpec :=
  [UnaryOpSpec "("; UnaryOpSpec ")"; UnaryOpSpec ","].

(** The structural specs whose symbol no spec of [all] names. *)
Definition missing_structural (all : list OpSpec) : list OpSpec :=
  filter (fun o => negb (existsb (mentions (opName o)) all)) structural_specs.

(** [out] with [added] at the end of its last tier. *)
Definition extend_last (out : list (list OpSpec)) (added : list OpSpec)
    : list (list OpSpec) :=
  removelast out ++ [last out [] ++ added].

(** What the claim about the table promises of [processOps ops = Ok out]:
    specs for all of ['('], [')'] and [','] are added to the last tier. *)
Definition appends_all_structural (ops : list (list (string + OpSpec)))
    (out : list (list OpSpec)) : Prop :=
  exists added,
    out = extend_last (map (map normalize) ops) added
    /\ forall sym, In sym ["("; ")"; ","] -> existsb (mentions sym) added = true.

(** ** The lexer *)

(** The text by which the spec [o] matches [s] at [charIdx], if it does: for
    a bracket pair the opening part is tried before the closing one. *)
Definition symbol_at (s : string) (charIdx : nat) (o : OpSpec) : option string :=
  match o with
  | FunctionOpSpec p0 p1 =>
      if startsWith s p0 charIdx then Some p0
      else if startsWith s p1 charIdx then Some p1
      else None
  | UnaryOpSpec sym | BinaryOpSpec sym =>
      if startsWith s sym charIdx then Some sym else None
  end.

(** The table [makeOp([['='], ['==']])] works with. *)
Definition eq_before_eqeq : list (list OpSpec) :=
  [ [BinaryOpSpec "="];
    [BinaryOpSpec "=="; UnaryOpSpec "("; UnaryOpSpec ")"; UnaryOpSpec ","] ].

(** ** Fuel *)

(** [r1] is [r2] unless the fuel ran out before [r1] was known. *)
Definition approx {A : Type} (r1 r2 : result A) : Prop :=
  r1 = OutOfFuel \/ r1 = r2.

(** ** Operator resolution *)

Section Resolution.
Context {H : Host}.

#[local] Abbreviation val := (value num obj).

Definition threw (o : outcome val) : Prop := exists msg, o = Throws msg.

(** The attempts [cands] in order, each in its own [try]/[catch]: the first
    that returns wins, and [k] follows when all have thrown. *)
Definition first_success (cands : list (outcome val)) (k : result val) : result val :=
  fold_right try_catch k cands.

(** The call of the instance method [op] of [v], where [v] is composite and
    exposes one. *)
Definition method_candidate (v : val) (op : string) (args : list val)
    : list (outcome val) :=
  match v with
  | VObj o => if has_method o op then [call_method o op args] else []
  | _ => []
  end.

(** The call of the type-level function [op] of the type of [v], where [v]
    is composite and its type exposes one. *)
Definition static_candidate (v : val) (op : string) (args : list val)
    : list (outcome val) :=
  match v with
  | VObj o =>
      if has_static (constructor o) op then [call_static (constructor o) op args]
      else []
  | _ => []
  end.

(** What [eval_binary] settles without a guarded attempt: the instance
    method of a composite left operand, whose exception propagates, and the
    builtins on primitives. *)
Definition resolved_directly (sym : string) (left right : val)
    : option (result val) :=
  let op := ("operator" ++ sym)%string in
  match left with
  | VObj l =>
      if has_method l op then Some (call (call_method l op [right])) else None
  | _ =>
      if String.eqb sym "+" then
        if is_str_or_num left && is_str_or_num right
        then Some (Ok (host_plus left right)) else None
      else if is_arith_symbol sym then
        match left, right with
        | VNum a, VNum b => Some (Ok (VNum (arith sym a b)))
        | _, _ => None
        end
      else None
  end.

(** The guarded attempts of [eval_binary], in the order it makes them. *)
Definition fallbacks (sym : string) (left right : val) : list (outcome val) :=
  let op := ("operator" ++ sym)%string in
  match left with
  | VObj _ =>
      static_candidate left op [left; right] ++ static_candidate right op [left; right]
  | _ =>
      if String.eqb sym "+" || is_arith_symbol sym then
        method_candidate right op [left] ++ static_candidate right op [left; right]
      else []
  end.

(** The message of the [Error] that [eval_binary] throws itself. *)
Definition operator_error (sym : string) (left right : val) : string :=
  let op := ("operator" ++ sym)%string in
  match left with
  | VObj _ =>
      "Operator error: " ++ op ++ " is not a callable on left operand "
      ++ toErrorDisplay left ++ " or a static function on either operand's types"
  | _ =>
      if String.eqb sym "+" then
        "Operator error: cannot evaluate " ++ toErrorDisplay left
        ++ " + " ++ toErrorDisplay right
      else if is_arith_symbol sym then
        "Operator error: cannot evaluate " ++ toErrorDisplay left
        ++ " " ++ sym ++ " " ++ toErrorDisplay right
      else
        "Operator error: " ++ op
        ++ " is not a builtin or a callable on left operand " ++ toErrorDisplay left
  end%string.

(** The resolution chain in the words of the spec (section 4.4, steps 1 to
    7), to set against [eval_binary]: instance method of the left operand;
    type-level function of the left type; type-level function of the right
    type; host [+]; builtin arithmetic; instance method of the right operand
    called with the left one; [OperatorError]. *)
Definition spec_resolution (sym : string) (left right : val) : result val :=
  let op := ("operator" ++ sym)%string in
  match method_candidate left op [right] with
  | o :: _ => call o
  | [] =>
      first_success
        (static_candidate left op [left; right]
         ++ static_candidate right op [left; right])
        (if String.eqb sym "+" && is_str_or_num left && is_str_or_num right
         then Ok (host_plus left right)
         else
           match is_arith_symbol sym, left, right with
           | true, VNum a, VNum b => Ok (VNum (arith sym a b))
           | _, _, _ =>
               first_success (method_candidate right op [left])
                 (Throw (operator_error sym left right))
           end)
  end.

End Resolution.

(** ** The parser *)

(** The table the exported [op] tag works with, as [processOps] leaves it. *)
Definition default_ops : list (list OpSpec) :=
  [ [BinaryOpSpec "*"; BinaryOpSpec "/"];
    [BinaryOpSpec "+"; BinaryOpSpec "-"];
    [BinaryOpSpec "=="; BinaryOpSpec "!="];
    [FunctionOpSpec "[" "]"; FunctionOpSpec "(" ")"; UnaryOpSpec "-"; UnaryOpSpec ","] ].

Definition start : cursor := {| strIdx := 0; charIdx := 0 |}.

Section Chains.
Context {H : Host}.

(** The [clauses] array after a tier parser has recorded the chain
    [(op1, r1), (op2, r2), ...] behind its first operand. *)
Definition clauses_of (l : ast) (chain : list (OpSpec * ast)) : list clause :=
  CTree l :: flat_map (fun '(o, r) => [CSpec o; CTree r]) chain.

(** [((left op1 r1) op2 r2) ...] *)
Definition fold_chain (l : ast) (chain : list (OpSpec * ast)) : ast :=
  fold_left (fun acc '(o, r) => Node o (Some acc) r) chain l.

End Chains.

Section Undefined.
Context {H : Host}.

(** Does the tree hold the literal [undefined] anywhere? *)
Fixpoint mentions_undefined (t : ast) : bool :=
  match t with
  | Lit VUndef => true
  | Lit _ => false
  | Node _ l r =>
      match l with
      | Some l' => mentions_undefined l'
      | None => false
      end || mentions_undefined r
  | NodeArgs _ l args => mentions_undefined l || existsb mentions_undefined args
  end.

End Undefined.

(** A fragment of white space only. *)
Fixpoint blank (s : string) : bool :=
  match s with
  | EmptyString => true
  | String ch rest => is_space ch && blank rest
  end.

(** ** The cursor *)

(** [c] comes strictly before [c'] in the template. *)
Definition cursor_lt (c c' : cursor) : Prop :=
  strIdx c < strIdx c'
  \/ (strIdx c = strIdx c' /\ charIdx c < charIdx c').

(** Does the character [q] occur in [s]? *)
Fixpoint has_char (q : ascii) (s : string) : bool :=
  match s with
  | EmptyString => false
  | String ch rest => Ascii.eqb ch q || has_char q rest
  end.

Section NumberRuns.
Context {H : Host}.

(** A character of a numeric literal: numeric and no white space. *)
Definition in_number (ch : ascii) : bool := negb (is_space ch) && isNumber ch.

Fixpoint all_in_number (s : string) : bool :=
  match s with
  | EmptyString => true
  | String ch rest => in_number ch && all_in_number rest
  end.

(** Does [s] go on with a character of a numeric literal? *)
Definition goes_on (s : string) : bool :=
  match s with
  | EmptyString => false
  | String ch _ => in_number ch
  end.

End NumberRuns.

Section Shapes.
Context {H : Host}.



End Shapes.

(** The table [makeOp([[{ type: 'un', op: '-' }], ['-']])] works with: the
    unary minus is declared in a tier before the binary one. *)
Definition unary_minus_first : list (list OpSpec) :=
  [ [UnaryOpSpec "-"];
    [BinaryOpSpec "-"; UnaryOpSpec "("; UnaryOpSpec ")"; UnaryOpSpec ","] ].

(** ** The first evaluator *)

(** [evalOps] of the first [makeOp] of [index.ts], where an operator is its
    symbol and only the instance method of the left operand and the builtins
    are consulted. *)
Section FirstEvaluator.
Context {H : Host}.

#[local] Abbreviation val := (value num obj).

Inductive ast_v1 : Type :=
| Lit_v1 (v : val)
| Node_v1 (op : string) (left right : ast_v1).

(** [typeof v] *)
Definition typeof (v : val) : string :=
  match v with
  | VUndef => "undefined"
  | VNum _ => "number"
  | VStr _ => "string"
  | VBool _ => "boolean"
  | VObj _ => "object"
  end.

(** The text of [v] in a template literal. *)
Definition template_text (v : val) : string :=
  match v with
  | VObj o =>
      match toPrimitive o with
      | Some s => s
      | None =>
          match custom_toString o with
          | Some s => s
          | None => "[object Object]"
          end
      end
  | _ => toErrorDisplay v
  end.

Definition eval_binary_v1 (sym : string) (left right : val) : result val :=
  let op := ("operator" ++ sym)%string in
  match left with
  | VObj l =>
      if has_method l op then call (call_method l op [right])
      else Throw ("Operator error: " ++ op ++ " is not a callable on left operand "
                  ++ template_text left)
  | _ =>
      if String.eqb sym "+" then
        if is_str_or_num left && is_str_or_num right then Ok (host_plus left right)
        else Throw ("Operator error: cannot evaluate '" ++ typeof left
                    ++ "' + '" ++ typeof right ++ "'")
      else if is_arith_symbol sym then
        match left, right with
        | VNum a, VNum b => Ok (VNum (arith sym a b))
        | _, _ =>
            Throw ("Operator error: cannot evaluate '" ++ typeof left
                   ++ "' " ++ sym ++ " '" ++ typeof right ++ "'")
        end
      else
        Throw ("Operator error: " ++ op
               ++ " is not a builtin or a callable on left operand "
               ++ template_text left)
  end%string.

Fixpoint evalOps_v1 (node : ast_v1) : result val :=
  match node with
  | Lit_v1 v => Ok v
  | Node_v1 sym node_left node_right =>
      let* l := evalOps_v1 node_left in
      let* r := evalOps_v1 node_right in
      eval_binary_v1 sym l r
  end.

(** The same tree as the second evaluator sees it: every operator binary. *)
Fixpoint upgrade (node : ast_v1) : ast :=
  match node with
  | Lit_v1 v => Lit v
  | Node_v1 sym node_left node_right =>
      Node (BinaryOpSpec sym) (Some (upgrade node_left)) (upgrade node_right)
  end.


End FirstEvaluator.

(** ** The first lexer *)

(** [lex] of the first [makeOp] of [index.ts]: the table holds bare symbols,
    ['('] and [')'] are always tried last, and an operator token is its
    symbol. *)
Section FirstLexer.
Context {H : Host}.

#[local] Abbreviation val := (value num obj).

Inductive Tok_v1 : Type :=
| LitTok_v1 (v : val)
| OpTok_v1 (sym : string).

Definition lex_v1 (ops : list (list string)) (strs : list string) (vals : list val)
    (c : cursor) : result (Tok_v1 * cursor) :=
  match nth_error strs (strIdx c) with
  | None => Ok (LitTok_v1 VUndef, c)
  | Some s =>
      let ci := skip_space (string_drop (charIdx c) s) (charIdx c) in
      let c' := {| strIdx := strIdx c; charIdx := ci |} in
      match String.get ci s with
      | None => Ok (LitTok_v1 (nth (strIdx c) vals VUndef), c')
      | Some ch =>
          match find (fun sym => startsWith s sym ci) (concat ops ++ ["("; ")"]) with
          | Some sym => Ok (OpTok_v1 sym, c')
          | None =>
              if Ascii.eqb ch quote1 || Ascii.eqb ch quote2 then
                match string_drop (S ci) s with
                | EmptyString => Throw "Syntax error: string literal expected"
                | rest =>
                    let* str := scan_string ch rest in
                    Ok (LitTok_v1 (VStr str), c')
                end
              else if isNumber ch then
                Ok (LitTok_v1 (VNum (Number (scan_number (string_drop ci s)))), c')
              else
                Throw ("Syntax error: invalid token '" ++ char_str ch ++ "'")%string
          end
      end
  end.

(** The token of the second lexer that stands for a token of the first
    under the table [ops]: a declared symbol is a binary operator, an
    undeclared parenthesis a structural one. *)
Definition token_of (ops : list (list string)) (tok : Tok_v1) : Tok :=
  match tok with
  | LitTok_v1 v => LitTok v
  | OpTok_v1 sym =>
      OpTok (if existsb (String.eqb sym) (concat ops)
             then BinaryOpSpec sym else UnaryOpSpec sym) sym
  end.

End FirstLexer.

(** * Properties *)

(** ** The operator table *)

Lemma no_tier_with_spec (ops : list (list (string + OpSpec))) :
  (length ops =? 0) || negb (existsb (fun tier => negb (length tier =? 0)) ops)
  = forallb (fun tier => length tier =? 0) ops.
Proof.
  destruct ops as [|t ops]; [reflexivity|].
  cbn [length Nat.eqb orb].
  induction (t :: ops) as [|t' l IH]; [reflexivity|].
  cbn [existsb forallb]. destruct (length t' =? 0); cbn; [exact IH | reflexivity].
Qed.

Lemma push_last_extend (out : list (list OpSpec)) (o : OpSpec) :
  out <> [] -> push_last out o = extend_last out [o].
Proof.
  unfold extend_last.
  induction out as [|t out IH]; [congruence|]. intros _.
  destruct out as [|t' out]; [reflexivity|].
  change (push_last (t :: t' :: out) o) with (t :: push_last (t' :: out) o).
  rewrite IH by discriminate. reflexivity.
Qed.

Lemma extend_last_nonempty (out : list (list OpSpec)) (added : list OpSpec) :
  extend_last out added <> [].
Proof. unfold extend_last. destruct (removelast out); discriminate. Qed.

Lemma extend_last_twice (out : list (list OpSpec)) (xs ys : list OpSpec) :
  extend_last (extend_last out xs) ys = extend_last out (xs ++ ys).
Proof.
  unfold extend_last.
  rewrite removelast_last, last_last, app_assoc. reflexivity.
Qed.

Lemma extend_last_nil (out : list (list OpSpec)) :
  out <> [] -> extend_last out [] = out.
Proof.
  intros Hne. unfold extend_last. rewrite app_nil_r.
  symmetry. apply app_removelast_last. exact Hne.
Qed.

Lemma concat_extend_last (out : list (list OpSpec)) (added : list OpSpec) :
  out <> [] -> concat (extend_last out added) = concat out ++ added.
Proof.
  intros Hne. unfold extend_last.
  rewrite concat_app. cbn [concat]. rewrite app_nil_r, app_assoc.
  f_equal.
  rewrite (app_removelast_last [] Hne) at 3.
  rewrite concat_app. cbn [concat]. rewrite app_nil_r. reflexivity.
Qed.

Lemma push_unless_mentioned_extend all sym out :
  out <> [] ->
  push_unless_mentioned all sym out
  = extend_last out (filter (fun o => negb (existsb (mentions (opName o)) all))
                       [UnaryOpSpec sym]).
Proof.
  intros Hne. unfold push_unless_mentioned. cbn [filter opName].
  destruct (negb (existsb (mentions sym) all)).
  - apply push_last_extend, Hne.
  - symmetry. apply extend_last_nil, Hne.
Qed.

Lemma processOps_unfold (ops : list (list (string + OpSpec))) :
  processOps ops =
  if forallb (fun tier => length tier =? 0) ops
  then Throw "No operators supplied"
  else
    let out := map (map normalize) ops in
    Ok (extend_last out (missing_structural (concat out))).
Proof.
  unfold processOps. rewrite no_tier_with_spec.
  destruct (forallb _ ops) eqn:Hall; [reflexivity|].
  assert (Hne : map (map normalize) ops <> []).
  { destruct ops; [discriminate Hall | discriminate]. }
  cbv zeta. f_equal.
  rewrite (push_unless_mentioned_extend _ "(") by exact Hne.
  rewrite (push_unless_mentioned_extend _ ")") by apply extend_last_nonempty.
  rewrite (push_unless_mentioned_extend _ ",") by apply extend_last_nonempty.
  rewrite !extend_last_twice.
  unfold missing_structural, structural_specs.
  change [UnaryOpSpec "("; UnaryOpSpec ")"; UnaryOpSpec ","]
    with ([UnaryOpSpec "("] ++ [UnaryOpSpec ")"] ++ [UnaryOpSpec ","]).
  rewrite !filter_app. rewrite app_assoc. reflexivity.
Qed.

(** C3, as stated, fails on the table [[['(']]]: it has a spec, it declares no
    [Bracket('(',')')] and no [Binary(',')], and yet nothing is added for
    ['(']: the binary ['('] of the user already names the symbol. *)
Lemma processOps_binary_paren_counterexample :
  let ops := [[inl "("]] in
  let declared := concat (map (map normalize) ops) in
  existsb (fun tier => negb (length tier =? 0)) ops = true
  /\ ~ In (FunctionOpSpec "(" ")") declared
  /\ ~ In (BinaryOpSpec ",") declared
  /\ processOps ops = Ok [[BinaryOpSpec "("; UnaryOpSpec ")"; UnaryOpSpec ","]]
  /\ ~ (exists out, processOps ops = Ok out /\ appends_all_structural ops out).
Proof.
  cbv zeta. repeat split.
  - cbn. intros [E|[]]; discriminate E.
  - cbn. intros [E|[]]; discriminate E.
  - intros (out & Hout & added & Hadd & Hall).
    cbv in Hout. injection Hout as <-.
    cbv [extend_last map normalize removelast last app] in Hadd.
    injection Hadd as Hadd. subst added.
    specialize (Hall "(" (or_introl eq_refl)). cbv in Hall. discriminate Hall.
Qed.

(** C3, amended: construction fails exactly when every tier is empty;
    otherwise it turns string shorthand into binary specs and adds to the
    last tier, for each of ['('], [')'] and [','] in this order, a
    unary-tagged spec when no spec of the table names the symbol (as its
    symbol or as either part of a bracket pair) and nothing when one does.
    After construction every one of the three symbols is named by a spec. *)
Theorem processOps_structural (ops : list (list (string + OpSpec))) :
  processOps ops =
    (if forallb (fun tier => length tier =? 0) ops
     then Throw "No operators supplied"
     else Ok (extend_last (map (map normalize) ops)
                (missing_structural (concat (map (map normalize) ops)))))
  /\ (forall out sym,
        processOps ops = Ok out -> In sym ["("; ")"; ","] ->
        existsb (mentions sym) (concat out) = true).
Proof.
  split; [apply processOps_unfold|].
  intros out sym Hout Hsym. rewrite processOps_unfold in Hout.
  destruct (forallb _ ops) eqn:Hall; [discriminate Hout|].
  cbv zeta in Hout. injection Hout as <-.
  assert (Hne : map (map normalize) ops <> []).
  { destruct ops; [discriminate Hall | discriminate]. }
  rewrite concat_extend_last by exact Hne.
  rewrite existsb_app.
  set (all := concat (map (map normalize) ops)).
  destruct (existsb (mentions sym) all) eqn:Hin; [reflexivity|].
  cbn [orb]. unfold missing_structural, structural_specs. cbn [filter opName].
  cbn in Hsym.
  destruct Hsym as [<-|[<-|[<-|[]]]]; rewrite Hin; cbn [negb];
    repeat match goal with
           | |- context [if negb ?b then _ else _] => destruct b; cbn [negb]
           end; reflexivity.
Qed.

(** ** The lexer *)

Lemma find_op_symbol_at (specs : list OpSpec) (s : string) (ci : nat) :
  find_op specs s ci =
  match specs with
  | [] => None
  | o :: rest =>
      match symbol_at s ci o with
      | Some raw => Some (o, raw)
      | None => find_op rest s ci
      end
  end.
Proof.
  destruct specs as [|[sym|sym|p0 p1] rest]; cbn [find_op symbol_at];
    try reflexivity;
    repeat match goal with |- context [if ?b then _ else _] => destruct b end;
    reflexivity.
Qed.

(** The scan stops at the first spec that matches. *)
Lemma find_op_first (before after : list OpSpec) (o : OpSpec) (raw s : string)
    (ci : nat) :
  Forall (fun o' => symbol_at s ci o' = None) before ->
  symbol_at s ci o = Some raw ->
  find_op (before ++ o :: after) s ci = Some (o, raw).
Proof.
  intros Hbefore Ho.
  induction Hbefore as [|o' before Ho' _ IH]; rewrite find_op_symbol_at; cbn.
  - rewrite Ho. reflexivity.
  - rewrite Ho'. exact IH.
Qed.

(** Whatever the scan finds is the first spec that matches. *)
Lemma find_op_is_first (specs : list OpSpec) (o : OpSpec) (raw s : string)
    (ci : nat) :
  find_op specs s ci = Some (o, raw) ->
  exists before after,
    specs = before ++ o :: after
    /\ Forall (fun o' => symbol_at s ci o' = None) before
    /\ symbol_at s ci o = Some raw.
Proof.
  induction specs as [|o' rest IH]; rewrite find_op_symbol_at; [discriminate|].
  destruct (symbol_at s ci o') as [raw'|] eqn:Ho'.
  - intros [= <- <-]. exists [], rest. repeat split; [constructor | exact Ho'].
  - intros Hrest. destruct (IH Hrest) as (before & after & -> & Hb & Ho).
    exists (o' :: before), after. repeat split; [constructor; assumption | exact Ho].
Qed.

(** C4: where the cursor, after white space, stands on a character of the
    fragment, [lex] scans the flattened table in declaration order and
    yields the operator token of the first spec one of whose symbols is a
    prefix of the rest of the fragment, with that symbol as matched text,
    whatever longer symbols later specs declare; and it yields an operator
    token only for such a first match. With the tiers [[['='], ['==']]] the
    text [==] therefore lexes as [=], [=], end of input. *)
Theorem lex_first_match {H : Host} :
  (forall ops strs vals c s ch before o after raw,
      nth_error strs (strIdx c) = Some s ->
      String.get (skip_space (string_drop (charIdx c) s) (charIdx c)) s = Some ch ->
      concat ops = before ++ o :: after ->
      Forall (fun o' =>
                symbol_at s (skip_space (string_drop (charIdx c) s) (charIdx c)) o'
                = None) before ->
      symbol_at s (skip_space (string_drop (charIdx c) s) (charIdx c)) o = Some raw ->
      lex ops strs vals c
      = Ok (OpTok o raw,
            {| strIdx := strIdx c;
               charIdx := skip_space (string_drop (charIdx c) s) (charIdx c) |}))
  /\ (forall ops strs vals c c' o raw,
         lex ops strs vals c = Ok (OpTok o raw, c') ->
         exists s before after,
           nth_error strs (strIdx c) = Some s
           /\ concat ops = before ++ o :: after
           /\ Forall (fun o' => symbol_at s (charIdx c') o' = None) before
           /\ symbol_at s (charIdx c') o = Some raw)
  /\ (forall vals,
         let at_ n := {| strIdx := 0; charIdx := n |} in
         processOps [[inl "="]; [inl "=="]] = Ok eq_before_eqeq
         /\ lex eq_before_eqeq ["=="] vals (at_ 0) = Ok (OpTok (BinaryOpSpec "=") "=", at_ 0)
         /\ next eq_before_eqeq ["=="] vals (at_ 0) = Ok (at_ 1)
         /\ lex eq_before_eqeq ["=="] vals (at_ 1) = Ok (OpTok (BinaryOpSpec "=") "=", at_ 1)
         /\ next eq_before_eqeq ["=="] vals (at_ 1) = Ok (at_ 2)
         /\ lex eq_before_eqeq ["=="] vals (at_ 2) = Ok (LitTok (nth 0 vals VUndef), at_ 2)).
Proof.
  split; [|split].
  - intros ops strs vals c s ch before o after raw Hs Hch Hops Hbefore Ho.
    unfold lex. rewrite Hs. cbv zeta. rewrite Hch, Hops.
    rewrite (find_op_first before after o raw) by assumption. reflexivity.
  - intros ops strs vals c c' o raw. unfold lex.
    destruct (nth_error strs (strIdx c)) as [s|] eqn:Hs; [|discriminate].
    cbv zeta.
    set (ci := skip_space (string_drop (charIdx c) s) (charIdx c)).
    destruct (String.get ci s) as [ch|]; [|discriminate].
    destruct (find_op (concat ops) s ci) as [[o' raw']|] eqn:Hfind.
    + intros [= <- <- <-]. cbn [charIdx].
      destruct (find_op_is_first _ _ _ _ _ Hfind) as (before & after & E & Hb & Ho).
      exists s, before, after. auto.
    + destruct (Ascii.eqb ch quote1 || Ascii.eqb ch quote2).
      * destruct (string_drop (S ci) s); [discriminate|].
        destruct (scan_string ch _); discriminate.
      * destruct (isNumber ch); discriminate.
  - intros vals. cbv zeta. repeat split.
Qed.

(** The general part of [lex_first_match] at the table [[['='], ['==']]]:
    on [==] the spec [=] comes first and wins. *)
Lemma lex_first_match_witness :
  lex (H := Demo.demo_host) eq_before_eqeq ["=="] [] {| strIdx := 0; charIdx := 0 |}
  = Ok (OpTok (BinaryOpSpec "=") "=", {| strIdx := 0; charIdx := 0 |}).
Proof.
  exact (proj1 (lex_first_match (H := Demo.demo_host))
           eq_before_eqeq ["=="] [] {| strIdx := 0; charIdx := 0 |}
           "==" "="%char [] (BinaryOpSpec "=")
           [BinaryOpSpec "=="; UnaryOpSpec "("; UnaryOpSpec ")"; UnaryOpSpec ","]
           "=" eq_refl eq_refl eq_refl (Forall_nil _) eq_refl).
Defined.

(** *** [lex] is a peek, [next] moves past what was peeked *)

Lemma skip_space_from (rest : string) (k : nat) :
  skip_space rest k = k + skip_space rest 0.
Proof.
  revert k. induction rest as [|ch rest IH]; intros k; cbn [skip_space].
  - lia.
  - destruct (is_space ch); [|lia].
    rewrite (IH (S k)), (IH 1). lia.
Qed.

Lemma string_drop_add (s : string) (k n : nat) :
  string_drop (k + n) s = string_drop n (string_drop k s).
Proof.
  revert s. induction k as [|k IH]; intros s; [reflexivity|].
  destruct s as [|ch s]; cbn [Nat.add string_drop].
  - destruct n; reflexivity.
  - apply IH.
Qed.

Lemma skip_space_done (rest : string) (m : nat) :
  skip_space (string_drop (skip_space rest 0) rest) m = m.
Proof.
  induction rest as [|ch rest IH]; [reflexivity|].
  cbn [skip_space]. destruct (is_space ch) eqn:Hch.
  - rewrite (skip_space_from rest 1). cbn [Nat.add string_drop]. exact IH.
  - cbn [string_drop skip_space]. rewrite Hch. reflexivity.
Qed.

Lemma skip_space_idempotent (s : string) (k : nat) :
  let ci := skip_space (string_drop k s) k in
  skip_space (string_drop ci s) ci = ci.
Proof.
  cbv zeta. rewrite (skip_space_from (string_drop k s) k).
  rewrite string_drop_add. apply skip_space_done.
Qed.

Section LexFacts.
Context {H : Host}.
Variable ops : list (list OpSpec).
Variable strs : list string.
Variable vals : list (value num obj).

(** Peeking twice yields the same token and leaves the cursor where the
    first peek left it. *)
Lemma lex_idempotent (c c' : cursor) (tok : Tok) :
  lex ops strs vals c = Ok (tok, c') -> lex ops strs vals c' = Ok (tok, c').
Proof.
  unfold lex.
  destruct (nth_error strs (strIdx c)) as [s|] eqn:Hs.
  - cbv zeta.
    pose proof (skip_space_idempotent s (charIdx c)) as Hidem. cbv zeta in Hidem.
    set (ci := skip_space (string_drop (charIdx c) s) (charIdx c)) in *.
    intros Hlex.
    assert (Hc' : c' = {| strIdx := strIdx c; charIdx := ci |}).
    { destruct (String.get ci s); [|injection Hlex as _ <-; reflexivity].
      destruct (find_op (concat ops) s ci) as [[o raw]|];
        [injection Hlex as _ <-; reflexivity|].
      destruct (Ascii.eqb _ quote1 || Ascii.eqb _ quote2).
      - destruct (string_drop (S ci) s); [discriminate|].
        destruct (scan_string _ _); try discriminate.
        injection Hlex as _ <-; reflexivity.
      - destruct (isNumber _); [|discriminate].
        injection Hlex as _ <-; reflexivity. }
    subst c'. cbn [strIdx charIdx]. rewrite Hs, Hidem. exact Hlex.
  - intros [= <- <-]. rewrite Hs. reflexivity.
Qed.

(** A token other than a hole or the end of input stands on a character. *)
Lemma lex_position (c c' : cursor) (tok : Tok) :
  lex ops strs vals c = Ok (tok, c') ->
  strIdx c' = strIdx c
  /\ match nth_error strs (strIdx c) with
     | None => tok = LitTok VUndef
     | Some s =>
         match String.get (charIdx c') s with
         | None => tok = LitTok (nth (strIdx c) vals VUndef)
         | Some ch =>
             match tok with
             | OpTok o raw => find_op (concat ops) s (charIdx c') = Some (o, raw)
             | LitTok (VStr str) =>
                 scan_string ch (string_drop (S (charIdx c')) s) = Ok str
             | LitTok v =>
                 v = VNum (Number (scan_number (string_drop (charIdx c') s)))
             end
         end
     end.
Proof.
  unfold lex.
  destruct (nth_error strs (strIdx c)) as [s|] eqn:Hs.
  - cbv zeta.
    set (ci := skip_space (string_drop (charIdx c) s) (charIdx c)).
    destruct (String.get ci s) as [ch|] eqn:Hch.
    + destruct (find_op (concat ops) s ci) as [[o raw]|] eqn:Hfind.
      * intros [= <- <-]. cbn [strIdx charIdx]. rewrite Hch. auto.
      * destruct (Ascii.eqb ch quote1 || Ascii.eqb ch quote2).
        -- destruct (string_drop (S ci) s) eqn:Hrest; [discriminate|].
           destruct (scan_string ch _) eqn:Hscan; try discriminate.
           intros [= <- <-]. cbn [strIdx charIdx]. rewrite Hch, Hrest. auto.
        -- destruct (isNumber ch); [|discriminate].
           intros [= <- <-]. cbn [strIdx charIdx]. rewrite Hch. auto.
    + intros [= <- <-]. cbn [strIdx charIdx]. rewrite Hch. auto.
  - intros [= <- <-]. auto.
Qed.

(** The widths by which [next] moves past a token just peeked: the matched
    symbol for an operator, the content and its two quotes for a string
    literal, the text of the number's value for a numeric literal, and the
    jump to the next fragment for a hole. *)
Lemma next_after_lex (c c' : cursor) (tok : Tok) (s : string) :
  lex ops strs vals c = Ok (tok, c') ->
  nth_error strs (strIdx c) = Some s ->
  next ops strs vals c' =
  match String.get (charIdx c') s with
  | None => Ok {| strIdx := S (strIdx c'); charIdx := 0 |}
  | Some _ =>
      match tok with
      | OpTok _ raw =>
          Ok {| strIdx := strIdx c'; charIdx := charIdx c' + String.length raw |}
      | LitTok (VStr str) =>
          Ok {| strIdx := strIdx c'; charIdx := charIdx c' + (String.length str + 2) |}
      | LitTok _ =>
          Ok {| strIdx := strIdx c';
                charIdx := charIdx c'
                           + String.length
                               (num_toString
                                  (Number (scan_number (string_drop (charIdx c') s)))) |}
      end
  end.
Proof.
  intros Hlex Hs.
  pose proof (lex_position _ _ _ Hlex) as [Hidx Hpos].
  pose proof (lex_idempotent _ _ _ Hlex) as Hagain.
  rewrite Hs in Hpos.
  unfold next. rewrite Hidx, Hs.
  destruct (String.get (charIdx c') s) as [ch|]; [|reflexivity].
  rewrite Hagain. cbn [bind].
  destruct tok as [v|o raw]; [|rewrite Hidx; reflexivity].
  destruct v; try (rewrite Hpos; cbn; rewrite Hidx; reflexivity).
  cbn. rewrite Hidx. reflexivity.
Qed.

End LexFacts.

Section FailingNumericWidth.
Import Demo.

(** C5, at the failing input [007 + 1] under the default table: the run of
    digits peeked is [007], three characters long, and [next] moves one
    character on, the length of the text of the value 7; what follows is
    read as the number 7 again, and the expression is refused. *)
Theorem next_numeric_width_failing_input :
  let start := {| strIdx := 0; charIdx := 0 |} in
  exists ops,
    processOps default_operators = Ok ops
    /\ lex ops ["007 + 1"] [] start = Ok (LitTok (VNum (demo_Number "007")), start)
    /\ scan_number "007 + 1" = "007"
    /\ String.length "007" = 3
    /\ next ops ["007 + 1"] [] start = Ok {| strIdx := 0; charIdx := 1 |}
    /\ lex ops ["007 + 1"] [] {| strIdx := 0; charIdx := 1 |}
       = Ok (LitTok (VNum (demo_Number "07")), {| strIdx := 0; charIdx := 1 |})
    /\ makeOp default_operators 30 ["007 + 1"] []
       = Throw "Syntax error: expected operator".
Proof.
  cbv zeta. eexists. split; [reflexivity|].
  repeat split; vm_compute; reflexivity.
Qed.

End FailingNumericWidth.

(** ** More fuel never changes an answer *)

Lemma approx_refl {A : Type} (r : result A) : approx r r.
Proof. right. reflexivity. Qed.

Lemma approx_bind {A B : Type} (r1 r2 : result A) (k1 k2 : A -> result B) :
  approx r1 r2 -> (forall a, approx (k1 a) (k2 a)) ->
  approx (bind r1 k1) (bind r2 k2).
Proof.
  intros [->| ->] Hk; [left; reflexivity|].
  destruct r2; cbn; [apply Hk | | |]; apply approx_refl.
Qed.

Lemma approx_definite {A : Type} (r1 r2 : result A) :
  approx r1 r2 -> r1 <> OutOfFuel -> r2 = r1.
Proof. intros [->| ->] Hdef; [contradiction | reflexivity]. Qed.

(** One step through a term built from [bind], [match] and [if]. *)
Ltac approx_step :=
  match goal with
  | |- approx ?r ?r => apply approx_refl
  | |- approx OutOfFuel _ => left; reflexivity
  | |- approx (bind _ _) (bind _ _) => apply approx_bind; [|intros ?]
  | |- approx (match ?t with _ => _ end) (match ?t with _ => _ end) => destruct t
  | |- approx (if ?b then _ else _) (if ?b then _ else _) => destruct b
  end.

Section Fuel.
Context {H : Host}.
Variable ops : list (list OpSpec).
Variable strs : list string.
Variable vals : list (value num obj).

Lemma tier_loop_approx (f f' : nat) (p q : cursor -> result (ast * cursor)) :
  f <= f' -> (forall c, approx (p c) (q c)) ->
  forall tier clauses tok c,
    approx (tier_loop ops strs vals f p tier clauses tok c)
           (tier_loop ops strs vals f' q tier clauses tok c).
Proof.
  intros Hle Hpq. revert f' Hle.
  induction f as [|f IH]; intros f' Hle tier clauses tok c.
  - destruct tok as [v|spec raw]; cbn [tier_loop].
    + destruct f'; apply approx_refl.
    + destruct f'; cbn [tier_loop]; destruct (existsb _ tier);
        try apply approx_refl; left; reflexivity.
  - destruct f' as [|f']; [lia|].
    cbn [tier_loop]. repeat approx_step; auto.
    apply IH. lia.
Qed.

Lemma args_loop_approx (f f' : nat) (p q : cursor -> result (ast * cursor)) :
  f <= f' -> (forall c, approx (p c) (q c)) ->
  forall closing args nextTok c,
    approx (args_loop ops strs vals f p closing args nextTok c)
           (args_loop ops strs vals f' q closing args nextTok c).
Proof.
  intros Hle Hpq. revert f' Hle.
  induction f as [|f IH]; intros f' Hle closing args nextTok c.
  - destruct f'; cbn [args_loop]; destruct (is_closing closing nextTok);
      try apply approx_refl; left; reflexivity.
  - destruct f' as [|f']; [lia|].
    cbn [args_loop]. repeat approx_step; auto; apply IH; lia.
Qed.

Lemma parsers_approx (f f' : nat) :
  f <= f' ->
  forall i c, approx (parsers ops strs vals f i c) (parsers ops strs vals f' i c).
Proof.
  revert f'. induction f as [|f IH]; intros f' Hle i c; [left; reflexivity|].
  destruct f' as [|f']; [lia|].
  assert (Hf : f <= f') by lia.
  cbn [parsers]. destruct i as [|j].
  - repeat approx_step; auto using args_loop_approx.
  - repeat approx_step; auto using tier_loop_approx.
Qed.

(** An answer found with some fuel is the answer with any more fuel. *)
Lemma parsers_more_fuel (f k i : nat) (c : cursor) (r : result (ast * cursor)) :
  parsers ops strs vals f i c = r -> r <> OutOfFuel ->
  parsers ops strs vals (f + k) i c = r.
Proof.
  intros <- Hdef. apply approx_definite; [|exact Hdef].
  apply parsers_approx. lia.
Qed.

Lemma op_more_fuel (f k : nat) (r : result (value num obj)) :
  op ops strs vals f = r -> r <> OutOfFuel -> op ops strs vals (f + k) = r.
Proof.
  intros <- Hdef. apply approx_definite; [|exact Hdef].
  unfold op. apply approx_bind; [apply parsers_approx; lia|].
  intros ?. apply approx_refl.
Qed.

End Fuel.

Lemma makeOp_more_fuel {H : Host} operators strs vals (f k : nat)
    (r : result (value num obj)) :
  makeOp operators f strs vals = r -> r <> OutOfFuel ->
  makeOp operators (f + k) strs vals = r.
Proof.
  unfold makeOp. destruct (processOps operators); cbn [bind]; try (intros <-; reflexivity).
  apply op_more_fuel.
Qed.

(** ** Operator resolution *)

Lemma prefix_append (s t : string) : String.prefix s (s ++ t) = true.
Proof.
  induction s as [|ch s IH]; cbn; [destruct t; reflexivity|].
  destruct (ascii_dec ch ch); [exact IH | congruence].
Qed.

Section ResolutionFacts.
Context {H : Host}.

#[local] Abbreviation val := (value num obj).

Lemma first_success_app (xs ys : list (outcome val)) (k : result val) :
  first_success (xs ++ ys) k = first_success xs (first_success ys k).
Proof. unfold first_success. apply fold_right_app. Qed.

Lemma try_static_candidate (o : obj) (op : string) (args : list val)
    (k : result val) :
  try_static (constructor o) op args k
  = first_success (static_candidate (VObj o) op args) k.
Proof.
  unfold try_static, static_candidate.
  destruct (has_static (constructor o) op); reflexivity.
Qed.

Lemma try_right_static_candidate (op : string) (left right : val)
    (k : result val) :
  try_right_static op left right k
  = first_success (static_candidate right op [left; right]) k.
Proof.
  destruct right; try reflexivity. apply try_static_candidate.
Qed.

Lemma right_fallbacks_candidates (op : string) (left right : val)
    (k : result val) :
  right_fallbacks op left right k
  = first_success
      (method_candidate right op [left] ++ static_candidate right op [left; right]) k.
Proof.
  rewrite first_success_app, <- try_right_static_candidate.
  destruct right as [| | | |r]; try reflexivity.
  cbn [right_fallbacks method_candidate].
  destruct (has_method r op); reflexivity.
Qed.

(** [eval_binary] is what it settles directly or else its guarded attempts
    in their order, followed by its own error. *)
Lemma eval_binary_candidates (sym : string) (left right : val) :
  eval_binary sym left right =
  match resolved_directly sym left right with
  | Some r => r
  | None =>
      first_success (fallbacks sym left right)
        (Throw (operator_error sym left right))
  end.
Proof.
  unfold eval_binary, resolved_directly, fallbacks, operator_error.
  destruct left as [| | | |l];
    try (destruct (String.eqb sym "+") eqn:Hplus; cbn [orb];
         [ match goal with
           | |- context [is_str_or_num ?l && is_str_or_num ?r] =>
               destruct (is_str_or_num l && is_str_or_num r)
           end; [reflexivity | apply right_fallbacks_candidates]
         | destruct (is_arith_symbol sym);
           [ destruct right; try reflexivity; apply right_fallbacks_candidates
           | reflexivity ] ]).
  destruct (has_method l ("operator" ++ sym)); [reflexivity|].
  rewrite first_success_app, try_static_candidate, try_right_static_candidate.
  reflexivity.
Qed.

Lemma first_success_returns (before after : list (outcome val)) (v : val)
    (k : result val) :
  Forall threw before ->
  first_success (before ++ Returns v :: after) k = Ok v.
Proof.
  induction 1 as [|o before [msg ->] _ IH]; [reflexivity | exact IH].
Qed.

Lemma first_success_all_threw (cands : list (outcome val)) (k : result val) :
  Forall threw cands -> first_success cands k = k.
Proof.
  induction 1 as [|o cands [msg ->] _ IH]; [reflexivity | exact IH].
Qed.

Lemma first_success_throws (cands : list (outcome val)) (msg msg' : string) :
  first_success cands (Throw msg) = Throw msg' ->
  msg' = msg /\ Forall threw cands.
Proof.
  induction cands as [|[v|m] cands IH]; cbn.
  - intros [= <-]. split; [reflexivity | constructor].
  - discriminate.
  - intros Hk. destruct (IH Hk) as [-> Hall].
    split; [reflexivity|]. constructor; [exists m; reflexivity | exact Hall].
Qed.

Lemma first_success_definite (cands : list (outcome val)) (msg : string) :
  first_success cands (Throw msg) <> OutOfFuel
  /\ first_success cands (Throw msg) <> Unmodelled.
Proof.
  induction cands as [|[v|m] cands IH]; cbn;
    [split; discriminate | split; discriminate | exact IH].
Qed.

Lemma operator_error_prefix (sym : string) (left right : val) :
  String.prefix "Operator error: " (operator_error sym left right) = true.
Proof.
  unfold operator_error.
  destruct left;
    repeat match goal with |- context [if ?b then _ else _] => destruct b end;
    first [ apply prefix_append
          | apply (prefix_append "Operator error: "
                     ("cannot evaluate " ++ _)%string) ].
Qed.

End ResolutionFacts.

(** C1, amended: [eval_binary] resolves in the order of the code. A
    composite left operand that exposes the instance method answers by it,
    and its exception propagates; without one, the type-level function of
    the left type and then that of the type of a composite right operand are
    attempted, and the right operand's instance method is never consulted.
    A primitive left operand answers by the host [+] or the builtin
    arithmetic where both operands fit; where they do not, for [+], [-],
    [*] and [/] only, the right operand's instance method called with the
    left one and then the type-level function of the right type are
    attempted. [OperatorError] follows when every attempt has thrown. In
    particular, where the left operand is composite without instance method
    and the function of its type throws, the answer is that of the function
    of the right type, or the error when there is none. *)
Theorem eval_binary_resolution_order {H : Host} (sym : string)
    (left right : value num obj) :
  eval_binary sym left right =
    match resolved_directly sym left right with
    | Some r => r
    | None =>
        first_success (fallbacks sym left right)
          (Throw (operator_error sym left right))
    end
  /\ (forall a,
        left = VObj a ->
        has_method a ("operator" ++ sym) = false ->
        Forall threw (static_candidate left ("operator" ++ sym) [left; right]) ->
        eval_binary sym left right =
          first_success (static_candidate right ("operator" ++ sym) [left; right])
            (Throw (operator_error sym left right))).
Proof.
  split; [apply eval_binary_candidates|].
  intros a -> Hno Hthrew. rewrite eval_binary_candidates.
  unfold resolved_directly, fallbacks. rewrite Hno.
  rewrite first_success_app. apply first_success_all_threw. exact Hthrew.
Qed.

(** C2: where [eval_binary] does not settle directly, the exception of a
    guarded attempt is swallowed and the next attempt made, so the first
    attempt that returns gives the answer; the evaluator's own
    [OperatorError] comes out exactly when every attempt has thrown; and no
    other exception ever comes out. *)
Theorem eval_binary_swallows_candidates {H : Host} (sym : string)
    (left right : value num obj) :
  resolved_directly sym left right = None ->
  (forall before v after,
      fallbacks sym left right = before ++ Returns v :: after ->
      Forall threw before ->
      eval_binary sym left right = Ok v)
  /\ (Forall threw (fallbacks sym left right) ->
      eval_binary sym left right = Throw (operator_error sym left right))
  /\ (forall msg,
        eval_binary sym left right = Throw msg ->
        msg = operator_error sym left right
        /\ Forall threw (fallbacks sym left right))
  /\ String.prefix "Operator error: " (operator_error sym left right) = true
  /\ eval_binary sym left right <> OutOfFuel
  /\ eval_binary sym left right <> Unmodelled.
Proof.
  intros Hdirect.
  pose proof (eval_binary_candidates sym left right) as Heval.
  rewrite Hdirect in Heval.
  split; [|split; [|split; [|split; [|split]]]].
  - intros before v after Hcands Hthrew.
    rewrite Heval, Hcands. apply first_success_returns, Hthrew.
  - intros Hall. rewrite Heval. apply first_success_all_threw, Hall.
  - intros msg Hmsg. rewrite Heval in Hmsg. apply first_success_throws, Hmsg.
  - apply operator_error_prefix.
  - rewrite Heval. apply first_success_definite.
  - rewrite Heval. apply first_success_definite.
Qed.

Section ResolutionExamples.
Import Demo.

(** C1, as stated, fails on [Point + Vector] of the tests' classes: the
    point has no instance [operator+], the function of its type throws, the
    vector has a working instance [operator+] and its type no function; the
    chain of the spec answers by the vector's method, the code throws. *)
Lemma resolution_order_counterexample :
  method_candidate point_3_4 "operator+" [vector_1_2] = []
  /\ static_candidate point_3_4 "operator+" [point_3_4; vector_1_2]
     = [Throws "Not point on RHS"]
  /\ method_candidate vector_1_2 "operator+" [point_3_4]
     = [Returns (VObj (mk Vector [4; 6]%Z))]
  /\ spec_resolution "+" point_3_4 vector_1_2 = Ok (VObj (mk Vector [4; 6]%Z))
  /\ evalOps (Node (BinaryOpSpec "+") (Some (Lit point_3_4)) (Lit vector_1_2))
     = Throw "Operator error: operator+ is not a callable on left operand Point or a static function on either operand's types"
  /\ makeOp default_operators 30 [""; " + "; ""] [point_3_4; vector_1_2]
     = Throw "Operator error: operator+ is not a callable on left operand Point or a static function on either operand's types".
Proof. repeat split; vm_compute; reflexivity. Qed.

(** [Point + Vec] of the tests: the function of [Point] throws and that of
    [Vec] answers. *)
Lemma eval_binary_resolution_order_witness :
  eval_binary "+" point_3_4 vec_1_2_3 = Ok (VObj (mk Vector [4; 6; 3]%Z)).
Proof.
  refine (eq_trans
            (proj2 (eval_binary_resolution_order (H := demo_host)
                      "+" point_3_4 vec_1_2_3)
               (mk Point [3; 4]%Z) eq_refl eq_refl _) _).
  - constructor; [exists "Not point on RHS"; reflexivity | constructor].
  - vm_compute. reflexivity.
Defined.

(** [Point + Vector]: the one attempt throws and the evaluator's own error
    comes out. *)
Lemma eval_binary_swallows_candidates_witness :
  eval_binary "+" point_3_4 vector_1_2
  = Throw (operator_error "+" point_3_4 vector_1_2).
Proof.
  apply (proj1 (proj2 (eval_binary_swallows_candidates (H := demo_host)
                         "+" point_3_4 vector_1_2 eq_refl))).
  constructor; [exists "Not point on RHS"; reflexivity | constructor].
Defined.

End ResolutionExamples.

(** ** The parser: chains of one tier *)

Lemma processOps_default : processOps default_operators = Ok default_ops.
Proof. reflexivity. Qed.

Section ChainFacts.
Context {H : Host}.
Variable ops : list (list OpSpec).
Variable strs : list string.
Variable vals : list (value num obj).

Lemma clauses_of_snoc (l : ast) (chain : list (OpSpec * ast)) (o : OpSpec) (r : ast) :
  clauses_of l chain ++ [CSpec o; CTree r] = clauses_of l (chain ++ [(o, r)]).
Proof.
  unfold clauses_of. rewrite flat_map_app. reflexivity.
Qed.

(** The loop over [clauses] folds a recorded chain to the left. *)
Lemma fold_clauses_chain (chain : list (OpSpec * ast)) :
  forall (l : ast) (turns : nat),
    length chain <= turns ->
    fold_clauses turns (clauses_of l chain) = Ok (fold_chain l chain).
Proof.
  induction chain as [|[o r] chain IH]; intros l turns Hturns.
  - destruct turns; reflexivity.
  - destruct turns as [|turns]; [cbn in Hturns; lia|].
    cbn in Hturns. apply (IH (Node o (Some l) r) turns). lia.
Qed.

Lemma clauses_of_length (l : ast) (chain : list (OpSpec * ast)) :
  length chain <= length (clauses_of l chain).
Proof.
  unfold clauses_of. cbn [length].
  induction chain as [|[o r] chain IH]; cbn; lia.
Qed.

(** The loop of a tier parser only ever records, behind what it was given,
    pairs of an operator and an operand that [operand] returned. *)
Lemma tier_loop_operands (P : ast -> Prop) (f : nat)
    (operand : cursor -> result (ast * cursor)) (tier : list OpSpec) (l : ast) :
  (forall c t c', operand c = Ok (t, c') -> P t) ->
  forall chain tok c clauses c',
    tier_loop ops strs vals f operand tier (clauses_of l chain) tok c
    = Ok (clauses, c') ->
    exists chain',
      clauses = clauses_of l (chain ++ chain')
      /\ Forall (fun p => P (snd p)) chain'.
Proof.
  intros Hoperand.
  assert (Hstop : forall chain,
             exists chain' : list (OpSpec * ast),
               clauses_of l chain = clauses_of l (chain ++ chain')
               /\ Forall (fun p => P (snd p)) chain').
  { intros chain. exists []. rewrite app_nil_r. split; [reflexivity | constructor]. }
  induction f as [|f IH]; intros chain tok c clauses c';
    (destruct tok as [v|spec raw]; cbn [tier_loop];
     [intros [= <- <-]; apply Hstop|]);
    (destruct (existsb _ tier); [|intros [= <- <-]; apply Hstop]);
    [discriminate|].
  destruct (next ops strs vals c) as [c1| | |]; try discriminate. cbn [bind].
  destruct (operand c1) as [[r c2]| | |] eqn:Hr; try discriminate. cbn [bind].
  destruct (lex ops strs vals c2) as [[tok' c3]| | |]; try discriminate.
  cbn [bind]. rewrite clauses_of_snoc. intros Hloop.
  destruct (IH _ _ _ _ _ Hloop) as (chain' & -> & Hall).
  exists ((spec, r) :: chain'). rewrite <- app_assoc. split; [reflexivity|].
  constructor; [exact (Hoperand _ _ _ Hr) | exact Hall].
Qed.

(** What a tier parser returns is its first operand with a chain folded to
    the left behind it, each operand of the chain read at the level below. *)
Lemma tier_parser_folds_left (f j : nat) (c c' : cursor) (t : ast) :
  parsers ops strs vals (S f) (S j) c = Ok (t, c') ->
  exists l c1 chain,
    parsers ops strs vals f j c = Ok (l, c1)
    /\ Forall (fun p => exists c0 c0',
                          parsers ops strs vals f j c0 = Ok (snd p, c0')) chain
    /\ t = fold_chain l chain.
Proof.
  cbn [parsers].
  destruct (parsers ops strs vals f j c) as [[l c1]| | |]; try discriminate.
  cbn [bind].
  destruct (lex ops strs vals c1) as [[tok c2]| | |]; try discriminate.
  cbn [bind]. destruct tok as [v|spec raw].
  - destruct v; try discriminate.
    destruct (next ops strs vals c2); try discriminate. cbn [bind].
    intros [= <- <-]. exists l, c1, []. auto.
  - change [CTree l] with (clauses_of l []).
    destruct (tier_loop _ _ _ _ _ _ _ _ _) as [[clauses c3]| | |] eqn:Hloop;
      try discriminate.
    cbn [bind].
    destruct (tier_loop_operands
                (fun r => exists c0 c0', parsers ops strs vals f j c0 = Ok (r, c0'))
                _ _ _ _ (fun c0 t0 c0' E => ex_intro _ c0 (ex_intro _ c0' E))
                _ _ _ _ _ Hloop) as (chain & -> & Hall).
    cbn [app]. rewrite fold_clauses_chain by apply clauses_of_length.
    cbn [bind]. intros [= <- <-]. exists l, c1, chain. auto.
Qed.

End ChainFacts.

(** Runs the parser of a concrete template whose holes may be variables:
    the answer found with the fuel [n] is the answer with [n + k]. *)
Ltac run_parsers :=
  repeat match goal with
         | |- context [parsers ?ops ?strs ?vals (?n + ?k) ?i ?c] =>
             let r := eval vm_compute in (parsers ops strs vals n i c) in
             rewrite (parsers_more_fuel ops strs vals n k i c r)
               by (solve [vm_compute; reflexivity | discriminate])
         end.

(** Unfolds a call of the tag under the default table down to its parser. *)
Ltac open_default_tag :=
  unfold makeOp; rewrite processOps_default; cbn [bind]; unfold op.

(** C6: the loop over the clauses of a tier parser folds the recorded chain
    strictly to the left, so every tier parser returns
    [((left op1 r1) op2 r2) ...] over operands of the level below; and under
    the default table [A - B - C] evaluates as [(A - B) - C] does, for all
    hole values, to the value of the tree [(A - B) - C] when none of them is
    undefined. *)
Theorem chains_fold_left {H : Host} :
  (forall l chain,
      fold_clauses (length (clauses_of l chain)) (clauses_of l chain)
      = Ok (fold_chain l chain))
  /\ (forall ops strs vals f j c c' t,
         parsers ops strs vals (S f) (S j) c = Ok (t, c') ->
         exists l c1 chain,
           parsers ops strs vals f j c = Ok (l, c1)
           /\ Forall (fun p => exists c0 c0',
                                 parsers ops strs vals f j c0 = Ok (snd p, c0')) chain
           /\ t = fold_chain l chain)
  /\ (forall A B C k,
         makeOp default_operators (30 + k) [""; " - "; " - "; ""] [A; B; C]
         = makeOp default_operators (30 + k) ["("; " - "; ") - "; ""] [A; B; C])
  /\ (forall A B C k,
         A <> VUndef -> B <> VUndef -> C <> VUndef ->
         makeOp default_operators (30 + k) [""; " - "; " - "; ""] [A; B; C]
         = evalOps (Node (BinaryOpSpec "-")
                      (Some (Node (BinaryOpSpec "-") (Some (Lit A)) (Lit B)))
                      (Lit C))).
Proof.
  split; [|split; [|split]].
  - intros l chain. apply fold_clauses_chain, clauses_of_length.
  - intros ops strs vals f j c c' t. apply tier_parser_folds_left.
  - intros A B C k. open_default_tag.
    destruct A, B, C; run_parsers; reflexivity.
  - intros A B C k HA HB HC. open_default_tag.
    destruct A; [contradiction| | | |];
      (destruct B; [contradiction| | | |]);
      (destruct C; [contradiction| | | |]);
      run_parsers; reflexivity.
Qed.

Section ChainExamples.
Import Demo.

(** [vec - vector - vector] of concrete vectors. *)
Lemma chains_fold_left_witness :
  makeOp default_operators (30 + 0) [""; " - "; " - "; ""]
    [vec_1_2_3; vector_2_3_4; vector_2_3_4]
  = Ok (VObj (mk Vector [-3; -4; -5]%Z)).
Proof.
  refine (eq_trans
            (proj2 (proj2 (proj2 (chains_fold_left (H := demo_host))))
               vec_1_2_3 vector_2_3_4 vector_2_3_4 0 _ _ _) _);
    [discriminate | discriminate | discriminate | vm_compute; reflexivity].
Defined.

End ChainExamples.

(** ** The parser: unary operators *)

Lemma symbol_at_unary (s : string) (ci : nat) (sym raw : string) :
  symbol_at s ci (UnaryOpSpec sym) = Some raw -> sym = raw.
Proof. cbn. destruct (startsWith s sym ci); congruence. Qed.

Lemma find_un_named (raw : string) (specs : list OpSpec) :
  existsb (is_un_named raw) specs = true ->
  find (is_un_named raw) specs = Some (UnaryOpSpec raw).
Proof.
  induction specs as [|o specs IH]; cbn [existsb find]; [discriminate|].
  destruct (is_un_named raw o) eqn:Ho; [intros _ | exact IH].
  destruct o as [sym| |]; try discriminate Ho.
  cbn in Ho. apply String.eqb_eq in Ho. subst sym. reflexivity.
Qed.

Section UnaryFacts.
Context {H : Host}.
Variable ops : list (list OpSpec).
Variable strs : list string.
Variable vals : list (value num obj).

(** An operator token carries a spec together with the symbol of that spec
    it was matched by. *)
Lemma lex_op_symbol_at (c c' : cursor) (o : OpSpec) (raw : string) :
  lex ops strs vals c = Ok (OpTok o raw, c') ->
  exists s, symbol_at s (charIdx c') o = Some raw.
Proof.
  intros Hlex. pose proof (lex_position _ _ _ _ _ _ Hlex) as [_ Hpos].
  destruct (nth_error strs (strIdx c)) as [s|]; [|discriminate Hpos].
  destruct (String.get (charIdx c') s); [|discriminate Hpos].
  destruct (find_op_is_first _ _ _ _ _ Hpos) as (before & after & _ & _ & Ho).
  exists s. exact Ho.
Qed.

(** At the primary level an operator token other than ['('] whose symbol
    the table declares as unary is consumed, its operand is read by the
    parser of the last tier, and the unary node comes out. *)
Lemma primary_unary (f : nat) (c c1 c2 c3 : cursor) (spec : OpSpec)
    (raw : string) (expr : ast) :
  lex ops strs vals c = Ok (OpTok spec raw, c1) ->
  raw <> "(" ->
  existsb (is_un_named raw) (concat ops) = true ->
  next ops strs vals c1 = Ok c2 ->
  parsers ops strs vals f (top ops) c2 = Ok (expr, c3) ->
  parsers ops strs vals (S f) 0 c = Ok (Node (UnaryOpSpec raw) None expr, c3).
Proof.
  intros Hlex Hparen Hun Hnext Hexpr.
  cbn [parsers]. rewrite Hlex. cbn [bind].
  destruct (String.eqb raw "(") eqn:Eparen;
    [apply String.eqb_eq in Eparen; contradiction|].
  rewrite Hun, orb_true_r, Hnext. cbn [bind]. rewrite Hexpr. cbn [bind].
  destruct (is_un spec) eqn:Hspec.
  - destruct spec as [sym| |]; try discriminate Hspec.
    destruct (lex_op_symbol_at _ _ _ _ Hlex) as [s Hs].
    apply symbol_at_unary in Hs. subst sym. reflexivity.
  - rewrite (find_un_named _ _ Hun). reflexivity.
Qed.

End UnaryFacts.

(** C7: under the default table [A - -B] parses as
    [BinaryOp(-, A, UnaryOp(-, B))]; at the primary level an operator token
    whose symbol is declared as unary is consumed as a unary operator over
    an operand read at the lowest level; and a unary node evaluates to the
    operand's instance method ['operator' + symbol] called without
    arguments, or fails with an operator error when the operand exposes
    none. *)
Theorem unary_minus_disambiguation {H : Host} :
  (forall A B k,
      A <> VUndef -> B <> VUndef ->
      processOps default_operators = Ok default_ops
      /\ parsers default_ops [""; " - -"; ""] [A; B] (30 + k) (top default_ops) start
         = Ok (Node (BinaryOpSpec "-") (Some (Lit A))
                 (Node (UnaryOpSpec "-") None (Lit B)),
               {| strIdx := 3; charIdx := 0 |}))
  /\ (forall ops strs vals f c c1 c2 c3 spec raw expr,
         lex ops strs vals c = Ok (OpTok spec raw, c1) ->
         raw <> "(" ->
         existsb (is_un_named raw) (concat ops) = true ->
         next ops strs vals c1 = Ok c2 ->
         parsers ops strs vals f (top ops) c2 = Ok (expr, c3) ->
         parsers ops strs vals (S f) 0 c = Ok (Node (UnaryOpSpec raw) None expr, c3))
  /\ (forall sym operand,
         evalOps (Node (UnaryOpSpec sym) None operand) =
         let* v := evalOps operand in
         match method_candidate v ("operator" ++ sym) [] with
         | o :: _ => call o
         | [] => Throw ("Operator error: operator" ++ sym
                        ++ " is not a callable on " ++ toErrorDisplay v)%string
         end).
Proof.
  split; [|split].
  - intros A B k HA HB. split; [reflexivity|].
    destruct A; [contradiction| | | |];
      (destruct B; [contradiction| | | |]);
      run_parsers; reflexivity.
  - intros ops strs vals f c c1 c2 c3 spec raw expr. apply primary_unary.
  - intros sym operand. cbn [evalOps].
    destruct (evalOps operand) as [v| | |]; try reflexivity. cbn [bind].
    unfold eval_unary, method_candidate.
    destruct v as [| | | |r]; try reflexivity.
    destruct (has_method r _); reflexivity.
Qed.

Section UnaryExamples.
Import Demo.

(** [vec - -vector] of concrete vectors. *)
Lemma unary_minus_disambiguation_witness :
  parsers default_ops [""; " - -"; ""] [vec_1_2_3; vector_2_3_4] (30 + 0)
    (top default_ops) start
  = Ok (Node (BinaryOpSpec "-") (Some (Lit vec_1_2_3))
          (Node (UnaryOpSpec "-") None (Lit vector_2_3_4)),
        {| strIdx := 3; charIdx := 0 |}).
Proof.
  refine (proj2 (proj1 (unary_minus_disambiguation (H := demo_host))
                   vec_1_2_3 vector_2_3_4 0 _ _)); discriminate.
Defined.

End UnaryExamples.

(** ** The parser: bracket/call forms *)

Section ArgsFacts.
Context {H : Host}.
Variable ops : list (list OpSpec).
Variable strs : list string.
Variable vals : list (value num obj).

(** The loop ends at once on the closing symbol. *)
Lemma args_loop_closing (f : nat) operand closing args nextTok c :
  is_closing closing nextTok = true ->
  args_loop ops strs vals f operand closing args nextTok c = Ok (args, nextTok, c).
Proof. intros Hclose. destruct f; cbn [args_loop]; rewrite Hclose; reflexivity. Qed.

(** After an argument, an operator token that is not [','], not the closing
    symbol, not tagged unary and not ['('] is refused. *)
Lemma args_loop_unexpected (f : nat) operand closing args nextTok c
    arg c1 spec raw c2 :
  is_closing closing nextTok = false ->
  operand c = Ok (arg, c1) ->
  lex ops strs vals c1 = Ok (OpTok spec raw, c2) ->
  raw <> "," -> raw <> closing -> is_un spec = false -> raw <> "(" ->
  args_loop ops strs vals (S f) operand closing args nextTok c
  = Throw ("Syntax error: expected either ',' or '" ++ closing
           ++ "', got '" ++ raw ++ "'")%string.
Proof.
  intros Hopen Harg Hlex Hcomma Hclose Hun Hparen.
  cbn [args_loop]. rewrite Hopen, Harg. cbn [bind]. rewrite Hlex. cbn [bind].
  apply String.eqb_neq in Hcomma, Hclose, Hparen.
  rewrite Hcomma, Hclose, Hun, Hparen. reflexivity.
Qed.

(** After an argument, a literal token (which can only be the end of
    input) is refused. *)
Lemma args_loop_unclosed (f : nat) operand closing args nextTok c arg c1 v c2 :
  is_closing closing nextTok = false ->
  operand c = Ok (arg, c1) ->
  lex ops strs vals c1 = Ok (LitTok v, c2) ->
  args_loop ops strs vals (S f) operand closing args nextTok c
  = Throw ("Syntax error: expected '" ++ closing ++ "'")%string.
Proof.
  intros Hopen Harg Hlex.
  cbn [args_loop]. rewrite Hopen, Harg. cbn [bind]. rewrite Hlex. reflexivity.
Qed.

(** After an argument, an operator token tagged unary or the token ['(']
    starts the next argument without a separator. *)
Lemma args_loop_juxtaposed (f : nat) operand closing args nextTok c
    arg c1 spec raw c2 :
  is_closing closing nextTok = false ->
  operand c = Ok (arg, c1) ->
  lex ops strs vals c1 = Ok (OpTok spec raw, c2) ->
  raw <> "," -> raw <> closing -> is_un spec = true \/ raw = "(" ->
  args_loop ops strs vals (S f) operand closing args nextTok c
  = args_loop ops strs vals f operand closing (args ++ [arg]) (OpTok spec raw) c2.
Proof.
  intros Hopen Harg Hlex Hcomma Hclose Hjux.
  cbn [args_loop]. rewrite Hopen, Harg. cbn [bind]. rewrite Hlex. cbn [bind].
  apply String.eqb_neq in Hcomma, Hclose. rewrite Hcomma, Hclose.
  destruct Hjux as [-> | ->]; cbn; [|rewrite andb_false_r]; reflexivity.
Qed.

(** A literal that is not undefined, followed by the opening symbol of a
    bracket pair, is the callee of a call node with the arguments the loop
    collects up to the closing symbol. *)
Lemma primary_call (f : nat) c v c1 c2 p0 p1 c3 c4 tok c5 args spec raw c6 :
  lex ops strs vals c = Ok (LitTok v, c1) ->
  v <> VUndef ->
  next ops strs vals c1 = Ok c2 ->
  lex ops strs vals c2 = Ok (OpTok (FunctionOpSpec p0 p1) p0, c3) ->
  next ops strs vals c3 = Ok c4 ->
  lex ops strs vals c4 = Ok (tok, c5) ->
  args_loop ops strs vals f (parsers ops strs vals f (top ops)) p1 [] tok c5
  = Ok (args, OpTok spec raw, c6) ->
  parsers ops strs vals (S f) 0 c = Ok (NodeArgs spec (Lit v) args, c6).
Proof.
  intros Hlex Hv Hnext Hopen Hnext' Hlex' Hloop.
  cbn [parsers]. rewrite Hlex. cbn [bind]. rewrite Hnext. cbn [bind].
  destruct v; [contradiction| | | |];
    rewrite Hopen; cbn [bind]; rewrite String.eqb_refl, Hnext'; cbn [bind];
    rewrite Hlex'; cbn [bind]; rewrite Hloop; reflexivity.
Qed.

End ArgsFacts.

(** C8, amended: a literal followed by the opening symbol of a bracket pair
    is read as a call whose arguments are parsed at the lowest level up to
    the closing symbol; the list may be empty; after an argument, the end
    of input is refused with "expected '<close>'" and an operator token
    other than [','] and the closing symbol is refused with "expected either
    ',' or '<close>', got '<token>'" unless it is tagged unary or is ['('],
    in which case it starts the next argument. Under the default table
    [M[i, j]] calls the instance method [operator[]] of [M] with [i] and
    [j], and [F()] calls [operator()] of [F] with no argument. *)
Theorem call_form {H : Host} :
  (forall ops strs vals f c v c1 c2 p0 p1 c3 c4 tok c5 args spec raw c6,
      lex ops strs vals c = Ok (LitTok v, c1) ->
      v <> VUndef ->
      next ops strs vals c1 = Ok c2 ->
      lex ops strs vals c2 = Ok (OpTok (FunctionOpSpec p0 p1) p0, c3) ->
      next ops strs vals c3 = Ok c4 ->
      lex ops strs vals c4 = Ok (tok, c5) ->
      args_loop ops strs vals f (parsers ops strs vals f (top ops)) p1 [] tok c5
      = Ok (args, OpTok spec raw, c6) ->
      parsers ops strs vals (S f) 0 c = Ok (NodeArgs spec (Lit v) args, c6))
  /\ (forall ops strs vals f operand closing args nextTok c,
         is_closing closing nextTok = true ->
         args_loop ops strs vals f operand closing args nextTok c
         = Ok (args, nextTok, c))
  /\ (forall ops strs vals f operand closing args nextTok c arg c1 spec raw c2,
         is_closing closing nextTok = false ->
         operand c = Ok (arg, c1) ->
         lex ops strs vals c1 = Ok (OpTok spec raw, c2) ->
         raw <> "," -> raw <> closing -> is_un spec = false -> raw <> "(" ->
         args_loop ops strs vals (S f) operand closing args nextTok c
         = Throw ("Syntax error: expected either ',' or '" ++ closing
                  ++ "', got '" ++ raw ++ "'")%string)
  /\ (forall ops strs vals f operand closing args nextTok c arg c1 v c2,
         is_closing closing nextTok = false ->
         operand c = Ok (arg, c1) ->
         lex ops strs vals c1 = Ok (LitTok v, c2) ->
         args_loop ops strs vals (S f) operand closing args nextTok c
         = Throw ("Syntax error: expected '" ++ closing ++ "'")%string)
  /\ (forall ops strs vals f operand closing args nextTok c arg c1 spec raw c2,
         is_closing closing nextTok = false ->
         operand c = Ok (arg, c1) ->
         lex ops strs vals c1 = Ok (OpTok spec raw, c2) ->
         raw <> "," -> raw <> closing -> is_un spec = true \/ raw = "(" ->
         args_loop ops strs vals (S f) operand closing args nextTok c
         = args_loop ops strs vals f operand closing (args ++ [arg])
             (OpTok spec raw) c2)
  /\ (forall m i j k,
         has_method m "operator[]" = true -> i <> VUndef -> j <> VUndef ->
         parsers default_ops [""; "["; ", "; "]"] [VObj m; i; j] (30 + k)
           (top default_ops) start
         = Ok (NodeArgs (FunctionOpSpec "[" "]") (Lit (VObj m)) [Lit i; Lit j],
               {| strIdx := 3; charIdx := 0 |})
         /\ makeOp default_operators (30 + k) [""; "["; ", "; "]"] [VObj m; i; j]
            = call (call_method m "operator[]" [i; j]))
  /\ (forall fn k,
         has_method fn "operator()" = true ->
         parsers default_ops [""; "()"] [VObj fn] (30 + k) (top default_ops) start
         = Ok (NodeArgs (FunctionOpSpec "(" ")") (Lit (VObj fn)) [],
               {| strIdx := 1; charIdx := 1 |})
         /\ makeOp default_operators (30 + k) [""; "()"] [VObj fn]
            = call (call_method fn "operator()" [])).
Proof.
  split; [|split; [|split; [|split; [|split; [|split]]]]].
  - intros ops strs vals. apply primary_call.
  - intros ops strs vals. apply args_loop_closing.
  - intros ops strs vals. apply args_loop_unexpected.
  - intros ops strs vals. apply args_loop_unclosed.
  - intros ops strs vals. apply args_loop_juxtaposed.
  - intros m i j k Hm Hi Hj.
    split; [|open_default_tag];
      (destruct i; [contradiction| | | |]);
      (destruct j; [contradiction| | | |]);
      run_parsers; try reflexivity;
      cbn [bind evalOps opName]; unfold eval_call;
      cbn [append]; rewrite Hm; reflexivity.
  - intros fn k Hfn.
    split; [|open_default_tag]; run_parsers; try reflexivity.
    cbn [bind evalOps opName]. unfold eval_call.
    cbn [append]. rewrite Hfn. reflexivity.
Qed.

Section CallExamples.
Import Demo.

(** C8, as stated, fails on [M[(i) (j)]] under the default table: after the
    first argument the token is ['('], neither [','] nor [']'], and no
    syntax error follows: the form is read as [M[i, j]]. *)
Lemma call_arguments_counterexample :
  let strs := [""; "[("; ") ("; ")]"] in
  let vals := [matrix_2_3; number 1; number 2] in
  parsers default_ops strs vals 30 (top default_ops) {| strIdx := 1; charIdx := 1 |}
  = Ok (Lit (number 1), {| strIdx := 2; charIdx := 2 |})
  /\ lex default_ops strs vals {| strIdx := 2; charIdx := 2 |}
     = Ok (OpTok (FunctionOpSpec "(" ")") "(", {| strIdx := 2; charIdx := 2 |})
  /\ parsers default_ops strs vals 30 (top default_ops) start
     = Ok (NodeArgs (FunctionOpSpec "[" "]") (Lit matrix_2_3)
             [Lit (number 1); Lit (number 2)],
           {| strIdx := 3; charIdx := 1 |})
  /\ makeOp default_operators 30 strs vals = Ok (number 3)
  /\ makeOp default_operators 30 [""; "["; ", "; "]"] vals = Ok (number 3).
Proof. cbv zeta. repeat split; vm_compute; reflexivity. Qed.

(** [matrix[1, 2]] of a concrete matrix. *)
Lemma call_form_witness :
  makeOp default_operators (30 + 0) [""; "["; ", "; "]"]
    [matrix_2_3; number 1; number 2]
  = Ok (number 3).
Proof.
  refine (eq_trans
            (proj2 (proj1 (proj2 (proj2 (proj2 (proj2 (proj2
               (call_form (H := demo_host)))))))
               (matrix 3 [0; 1; 2; 1; 2; 3]%Z) (number 1) (number 2) 0 eq_refl _ _)) _);
    [discriminate | discriminate | vm_compute; reflexivity].
Defined.

End CallExamples.

(** ** The parser: undefined holes and the end of input *)

Lemma blank_skip_space (s : string) (k : nat) :
  blank s = true -> skip_space s k = k + String.length s.
Proof.
  revert k. induction s as [|ch s IH]; intros k; cbn; [lia|].
  intros [Hch Hs]%andb_prop. rewrite Hch, IH by exact Hs. lia.
Qed.

Lemma get_length (s : string) : String.get (String.length s) s = None.
Proof. induction s as [|ch s IH]; [reflexivity | exact IH]. Qed.

Section UndefinedFacts.
Context {H : Host}.
Variable ops : list (list OpSpec).
Variable strs : list string.
Variable vals : list (value num obj).

(** Past the last fragment the token is the literal [undefined]. *)
Lemma lex_end_of_input (c : cursor) :
  nth_error strs (strIdx c) = None ->
  lex ops strs vals c = Ok (LitTok VUndef, c).
Proof. intros Hend. unfold lex. rewrite Hend. reflexivity. Qed.

(** At the end of a fragment the token is the literal of the hole that
    follows, and [next] moves to the next fragment. *)
Lemma lex_hole (c : cursor) (s : string) :
  nth_error strs (strIdx c) = Some s ->
  blank (string_drop (charIdx c) s) = true ->
  exists c',
    lex ops strs vals c = Ok (LitTok (nth (strIdx c) vals VUndef), c')
    /\ next ops strs vals c' = Ok {| strIdx := S (strIdx c); charIdx := 0 |}.
Proof.
  intros Hs Hblank.
  assert (Hget : String.get (skip_space (string_drop (charIdx c) s) (charIdx c)) s
                 = None).
  { rewrite blank_skip_space by exact Hblank.
    clear Hblank Hs. generalize (charIdx c) as k. intros k. revert s.
    induction k as [|k IH]; intros s; [apply get_length|].
    destruct s as [|ch s]; [reflexivity|]. cbn. apply IH. }
  eexists. unfold lex. rewrite Hs. cbv zeta. rewrite Hget.
  split; [reflexivity|].
  unfold next. cbn [strIdx charIdx]. rewrite Hs, Hget. reflexivity.
Qed.

(** An undefined hole where the expression should start is refused at
    every level. *)
Lemma undefined_first (c : cursor) (s : string) :
  nth_error strs (strIdx c) = Some s ->
  blank (string_drop (charIdx c) s) = true ->
  nth (strIdx c) vals VUndef = VUndef ->
  forall i f, i < f ->
    parsers ops strs vals f i c = Throw "Syntax error: expected value".
Proof.
  intros Hs Hblank Hundef.
  destruct (lex_hole c s Hs Hblank) as (c' & Hlex & Hnext).
  rewrite Hundef in Hlex.
  induction i as [|j IH]; intros f Hf; (destruct f as [|f]; [lia|]); cbn [parsers].
  - rewrite Hlex. cbn [bind]. rewrite Hnext. reflexivity.
  - rewrite IH by lia. reflexivity.
Qed.

(** A tier parser that meets the literal [undefined] after its operand
    stops there and returns the operand. *)
Lemma tier_stops_at_undefined (f j : nat) (c c1 c2 c3 : cursor) (l : ast) :
  parsers ops strs vals f j c = Ok (l, c1) ->
  lex ops strs vals c1 = Ok (LitTok VUndef, c2) ->
  next ops strs vals c2 = Ok c3 ->
  parsers ops strs vals (S f) (S j) c = Ok (l, c3).
Proof.
  intros Hl Hlex Hnext. cbn [parsers].
  rewrite Hl. cbn [bind]. rewrite Hlex. cbn [bind]. rewrite Hnext. reflexivity.
Qed.

Lemma args_loop_operands (P : ast -> Prop) (f : nat)
    (operand : cursor -> result (ast * cursor)) (closing : string) :
  (forall c t c', operand c = Ok (t, c') -> P t) ->
  forall args nextTok c args' tok c',
    Forall P args ->
    args_loop ops strs vals f operand closing args nextTok c = Ok (args', tok, c') ->
    Forall P args'.
Proof.
  intros Hoperand.
  induction f as [|f IH]; intros args nextTok c args' tok c' Hargs;
    cbn [args_loop]; (destruct (is_closing closing nextTok);
                      [intros [= <- <- <-]; exact Hargs|]);
    [discriminate|].
  destruct (operand c) as [[arg c1]| | |] eqn:Harg; try discriminate. cbn [bind].
  assert (Hargs' : Forall P (args ++ [arg])).
  { apply Forall_app. split; [exact Hargs|].
    constructor; [exact (Hoperand _ _ _ Harg) | constructor]. }
  destruct (lex ops strs vals c1) as [[[v|spec raw] c2]| | |]; try discriminate.
  cbn [bind]. destruct (String.eqb raw ",").
  - destruct (next ops strs vals c2) as [c3| | |]; try discriminate. cbn [bind].
    destruct (lex ops strs vals c3) as [[tok' c4]| | |]; try discriminate.
    cbn [bind]. apply IH, Hargs'.
  - destruct (negb (String.eqb raw closing) && negb (is_un spec)
              && negb (String.eqb raw "(")); [discriminate|].
    destruct (String.eqb raw closing).
    + intros [= <- <- <-]. exact Hargs'.
    + apply IH, Hargs'.
Qed.

Lemma fold_chain_defined (chain : list (OpSpec * ast)) :
  forall l,
    mentions_undefined l = false ->
    Forall (fun p => mentions_undefined (snd p) = false) chain ->
    mentions_undefined (fold_chain l chain) = false.
Proof.
  induction chain as [|[o r] chain IH]; intros l Hl Hall; [exact Hl|].
  inversion Hall as [|? ? Hr Hrest]; subst. cbn [snd] in Hr.
  apply IH; [|exact Hrest]. cbn. rewrite Hl, Hr. reflexivity.
Qed.

Lemma args_defined (args : list ast) :
  Forall (fun t => mentions_undefined t = false) args ->
  existsb mentions_undefined args = false.
Proof.
  induction 1 as [|t args Ht _ IH]; [reflexivity|].
  cbn [existsb]. rewrite Ht, IH. reflexivity.
Qed.

(** No tree the parser returns holds the literal [undefined]. *)
Lemma parsers_defined (f : nat) :
  forall i c t c',
    parsers ops strs vals f i c = Ok (t, c') -> mentions_undefined t = false.
Proof.
  induction f as [|f IH]; intros i c t c'; [discriminate|].
  cbn [parsers]. destruct i as [|j].
  - destruct (lex ops strs vals c) as [[[v|spec raw] c1]| | |]; try discriminate;
      cbn [bind].
    + destruct (next ops strs vals c1) as [c2| | |]; try discriminate. cbn [bind].
      assert (Hcall :
                v <> VUndef ->
                (let* '(nextTok, c0) := lex ops strs vals c2 in
                 match nextTok with
                 | OpTok (FunctionOpSpec p0 p1) raw =>
                     if String.eqb raw p0 then
                       let* c3 := next ops strs vals c0 in
                       let* '(nextTok0, c4) := lex ops strs vals c3 in
                       let* '(args, nextTok1, c5) :=
                         args_loop ops strs vals f (parsers ops strs vals f (top ops))
                           p1 [] nextTok0 c4 in
                       match nextTok1 with
                       | OpTok spec _ => Ok (NodeArgs spec (Lit v) args, c5)
                       | LitTok _ => Unmodelled
                       end
                     else Ok (Lit v, c0)
                 | _ => Ok (Lit v, c0)
                 end) = Ok (t, c') ->
                mentions_undefined t = false).
      { intros Hv.
        assert (Hlit : mentions_undefined (Lit v) = false)
          by (destruct v; [contradiction|reflexivity..]).
        destruct (lex ops strs vals c2) as [[[v'|spec raw] c3]| | |];
          try discriminate; cbn [bind]; [intros [= <- <-]; exact Hlit|].
        destruct spec as [sym|sym|p0 p1]; try (intros [= <- <-]; exact Hlit).
        destruct (String.eqb raw p0); [|intros [= <- <-]; exact Hlit].
        destruct (next ops strs vals c3) as [c4| | |]; try discriminate. cbn [bind].
        destruct (lex ops strs vals c4) as [[tok c5]| | |]; try discriminate.
        cbn [bind].
        destruct (args_loop _ _ _ _ _ _ _ _ _) as [[[args tok'] c6]| | |] eqn:Hloop;
          try discriminate.
        cbn [bind]. destruct tok' as [v'|spec' raw']; [discriminate|].
        intros [= <- <-].
        change (mentions_undefined (Lit v) || existsb mentions_undefined args = false).
        rewrite Hlit. cbn [orb]. apply args_defined.
        refine (args_loop_operands _ _ _ _ _ _ _ _ _ _ _ (Forall_nil _) Hloop).
        intros c0 t0 c0'. apply IH. }
      destruct v; [discriminate|apply Hcall; discriminate..].
    + destruct (String.eqb raw "(").
      * destruct (next ops strs vals c1) as [c2| | |]; try discriminate. cbn [bind].
        destruct (parsers ops strs vals f (top ops) c2) as [[expr c3]| | |] eqn:Hexpr;
          try discriminate.
        cbn [bind].
        destruct (lex ops strs vals c3) as [[cp c4]| | |]; try discriminate.
        cbn [bind]. destruct (is_closing ")" cp); [|discriminate].
        destruct (next ops strs vals c4); try discriminate. cbn [bind].
        intros [= <- <-]. exact (IH _ _ _ _ Hexpr).
      * destruct (is_un spec || existsb (is_un_named raw) (concat ops));
          [|discriminate].
        destruct (next ops strs vals c1) as [c2| | |]; try discriminate. cbn [bind].
        destruct (parsers ops strs vals f (top ops) c2) as [[expr c3]| | |] eqn:Hexpr;
          try discriminate.
        cbn [bind].
        destruct (if is_un spec then _ else _) as [un| | |]; try discriminate.
        cbn [bind]. intros [= <- <-]. cbn. exact (IH _ _ _ _ Hexpr).
  - destruct (parsers ops strs vals f j c) as [[l c1]| | |] eqn:Hl; try discriminate.
    cbn [bind]. pose proof (IH _ _ _ _ Hl) as Hldef.
    destruct (lex ops strs vals c1) as [[[v|spec raw] c2]| | |]; try discriminate;
      cbn [bind].
    + destruct v; try discriminate.
      destruct (next ops strs vals c2); try discriminate. cbn [bind].
      intros [= <- <-]. exact Hldef.
    + change [CTree l] with (clauses_of l []).
      destruct (tier_loop _ _ _ _ _ _ _ _ _) as [[clauses c3]| | |] eqn:Hloop;
        try discriminate.
      cbn [bind].
      destruct (tier_loop_operands ops strs vals
                  (fun t => mentions_undefined t = false)
                  _ _ _ _ (fun c0 t0 c0' => IH j c0 t0 c0') _ _ _ _ _ Hloop)
        as (chain & -> & Hall).
      cbn [app]. rewrite (fold_clauses_chain chain l) by apply clauses_of_length.
      cbn [bind]. intros [= <- <-]. apply fold_chain_defined; assumption.
Qed.

End UndefinedFacts.

(** C9: past the last fragment the lexer yields the literal [undefined],
    the very token it yields for a hole whose value is undefined; a template
    that is a single undefined hole is refused with "expected value"
    whatever the table; no tree the parser returns holds an undefined
    literal, an undefined hole where an operand is due being refused; and a
    tier parser that meets the undefined literal after its operand stops
    there. *)
Theorem undefined_hole_is_end_of_input {H : Host} :
  (forall ops strs vals c,
      nth_error strs (strIdx c) = None ->
      lex ops strs vals c = Ok (LitTok VUndef, c))
  /\ (forall ops strs vals c s,
         nth_error strs (strIdx c) = Some s ->
         blank (string_drop (charIdx c) s) = true ->
         nth (strIdx c) vals VUndef = VUndef ->
         exists c', lex ops strs vals c = Ok (LitTok VUndef, c'))
  /\ (forall operators ops s0 s1 f,
         processOps operators = Ok ops ->
         blank s0 = true -> blank s1 = true -> length ops < f ->
         makeOp operators f [s0; s1] [VUndef] = Throw "Syntax error: expected value")
  /\ (forall ops strs vals f i c t c',
         parsers ops strs vals f i c = Ok (t, c') -> mentions_undefined t = false)
  /\ (forall A k,
         A <> VUndef ->
         makeOp default_operators (30 + k) [""; " + "; ""] [A; VUndef]
         = Throw "Syntax error: expected value")
  /\ (forall ops strs vals f j c c1 c2 c3 l,
         parsers ops strs vals f j c = Ok (l, c1) ->
         lex ops strs vals c1 = Ok (LitTok VUndef, c2) ->
         next ops strs vals c2 = Ok c3 ->
         parsers ops strs vals (S f) (S j) c = Ok (l, c3)).
Proof.
  split; [|split; [|split; [|split; [|split]]]].
  - intros ops strs vals. apply lex_end_of_input.
  - intros ops strs vals c s Hs Hblank Hundef.
    destruct (lex_hole ops strs vals c s Hs Hblank) as (c' & Hlex & _).
    exists c'. rewrite Hlex, Hundef. reflexivity.
  - intros operators ops s0 s1 f Hops Hs0 _ Hf.
    unfold makeOp. rewrite Hops. cbn [bind]. unfold op.
    rewrite (undefined_first ops [s0; s1] [VUndef] _ s0) by
      (first [reflexivity | exact Hs0 | exact Hf]).
    reflexivity.
  - intros ops strs vals. apply parsers_defined.
  - intros A k HA. open_default_tag.
    destruct A; [contradiction| | | |]; run_parsers; reflexivity.
  - intros ops strs vals. apply tier_stops_at_undefined.
Qed.

Section UndefinedExamples.
Import Demo.

(** The single undefined hole under the default table, whose four tiers
    call for a fuel of five. *)
Lemma undefined_hole_is_end_of_input_witness :
  makeOp default_operators 5 [""; ""] [VUndef] = Throw "Syntax error: expected value".
Proof.
  refine (proj1 (proj2 (proj2 (undefined_hole_is_end_of_input (H := demo_host))))
            default_operators default_ops "" "" 5 eq_refl eq_refl eq_refl _).
  cbn. lia.
Defined.

End UndefinedExamples.

(** ** The parser: input left unread *)

Section UnreadFacts.
Context {H : Host}.
Variable ops : list (list OpSpec).
Variable strs : list string.
Variable vals : list (value num obj).

(** A tier parser that meets, after its operand, an operator token that is
    no binary operator of its tier returns the operand and leaves the token
    where it is. *)
Lemma tier_returns_at_foreign_operator (f j : nat) (c c1 c2 : cursor) (l : ast)
    (spec : OpSpec) (raw : string) :
  parsers ops strs vals f j c = Ok (l, c1) ->
  lex ops strs vals c1 = Ok (OpTok spec raw, c2) ->
  existsb (is_bin_named raw) (nth j ops []) = false ->
  parsers ops strs vals (S f) (S j) c = Ok (l, c2).
Proof.
  intros Hl Hlex Hforeign. cbn [parsers].
  rewrite Hl. cbn [bind]. rewrite Hlex. cbn [bind].
  destruct f; cbn [tier_loop]; rewrite Hforeign; reflexivity.
Qed.

(** The tag evaluates the tree of the last tier's parser wherever that
    parser stopped. *)
Lemma op_ignores_cursor (f : nat) (tree : ast) (c' : cursor) :
  parsers ops strs vals f (top ops) start = Ok (tree, c') ->
  op ops strs vals f = evalOps tree.
Proof. intros Htree. unfold op. fold start. rewrite Htree. reflexivity. Qed.

End UnreadFacts.

(** C10: the tag evaluates what the parser of the last tier returns and
    never looks at where it stopped; a tier parser returns without error at
    an operator token that is no binary operator of its tier, and the
    closing symbol of a call is left unread; so under the default table
    [M[i] + X] evaluates as [M[i]] alone, and [A ) + B] evaluates to [A]: the
    text behind is ignored. *)
Theorem unread_input_is_ignored {H : Host} :
  (forall ops strs vals f tree c',
      parsers ops strs vals f (top ops) start = Ok (tree, c') ->
      op ops strs vals f = evalOps tree)
  /\ (forall ops strs vals f j c c1 c2 l spec raw,
         parsers ops strs vals f j c = Ok (l, c1) ->
         lex ops strs vals c1 = Ok (OpTok spec raw, c2) ->
         existsb (is_bin_named raw) (nth j ops []) = false ->
         parsers ops strs vals (S f) (S j) c = Ok (l, c2))
  /\ (forall M i X k,
         M <> VUndef -> i <> VUndef ->
         parsers default_ops [""; "["; "] + "; ""] [M; i; X] (30 + k)
           (top default_ops) start
         = Ok (NodeArgs (FunctionOpSpec "[" "]") (Lit M) [Lit i],
               {| strIdx := 2; charIdx := 0 |})
         /\ lex default_ops [""; "["; "] + "; ""] [M; i; X]
              {| strIdx := 2; charIdx := 0 |}
            = Ok (OpTok (FunctionOpSpec "[" "]") "]", {| strIdx := 2; charIdx := 0 |})
         /\ makeOp default_operators (30 + k) [""; "["; "] + "; ""] [M; i; X]
            = makeOp default_operators (30 + k) [""; "["; "]"] [M; i])
  /\ (forall A B k,
         A <> VUndef ->
         makeOp default_operators (30 + k) [""; " ) + "; ""] [A; B] = Ok A).
Proof.
  split; [|split; [|split]].
  - intros ops strs vals. apply op_ignores_cursor.
  - intros ops strs vals. apply tier_returns_at_foreign_operator.
  - intros M i X k HM Hi.
    split; [|split; [reflexivity | open_default_tag]];
      (destruct M; [contradiction| | | |]);
      (destruct i; [contradiction| | | |]);
      run_parsers; reflexivity.
  - intros A B k HA. open_default_tag.
    destruct A; [contradiction| | | |]; run_parsers; reflexivity.
Qed.

Section UnreadExamples.
Import Demo.

(** [vec ) + vector]: the vector is never read. *)
Lemma unread_input_is_ignored_witness :
  makeOp default_operators (30 + 0) [""; " ) + "; ""] [vec_1_2_3; vector_2_3_4]
  = Ok vec_1_2_3.
Proof.
  refine (proj2 (proj2 (proj2 (unread_input_is_ignored (H := demo_host))))
            vec_1_2_3 vector_2_3_4 0 _).
  discriminate.
Defined.

End UnreadExamples.

(** * Further properties *)

(** ** The lexer as a peek *)

Lemma get_string_drop (s : string) (k n : nat) :
  String.get (k + n) s = String.get n (string_drop k s).
Proof.
  revert s. induction k as [|k IH]; intros s; [reflexivity|].
  destruct s as [|ch s]; cbn [Nat.add string_drop String.get].
  - destruct n; reflexivity.
  - apply IH.
Qed.

Lemma skip_space_stops (rest : string) (ch : ascii) :
  String.get (skip_space rest 0) rest = Some ch -> is_space ch = false.
Proof.
  induction rest as [|ch' rest IH]; [discriminate|].
  cbn [skip_space]. destruct (is_space ch') eqn:Hch'.
  - rewrite (skip_space_from rest 1). cbn [Nat.add String.get]. exact IH.
  - cbn. intros [= <-]. exact Hch'.
Qed.

Section PeekFacts.
Context {H : Host}.
Variable ops : list (list OpSpec).
Variable strs : list string.
Variable vals : list (value num obj).

(** Where [lex] leaves the cursor: in the same fragment, past the white
    space, on a character that is no white space or at the end. *)
Lemma lex_cursor (c c' : cursor) (tok : Tok) :
  lex ops strs vals c = Ok (tok, c') ->
  strIdx c' = strIdx c
  /\ charIdx c <= charIdx c'
  /\ forall s ch,
       nth_error strs (strIdx c) = Some s ->
       String.get (charIdx c') s = Some ch -> is_space ch = false.
Proof.
  intros Hlex.
  assert (Hshape :
            (nth_error strs (strIdx c) = None /\ c' = c)
            \/ exists s,
                nth_error strs (strIdx c) = Some s
                /\ c' = {| strIdx := strIdx c;
                           charIdx := skip_space (string_drop (charIdx c) s)
                                        (charIdx c) |}).
  { unfold lex in Hlex.
    destruct (nth_error strs (strIdx c)) as [s|];
      [right; exists s; split; [reflexivity|]
      | left; injection Hlex as _ <-; auto].
    cbv zeta in Hlex.
    set (ci := skip_space (string_drop (charIdx c) s) (charIdx c)) in *.
    destruct (String.get ci s); [|injection Hlex as _ <-; reflexivity].
    destruct (find_op (concat ops) s ci) as [[o raw]|];
      [injection Hlex as _ <-; reflexivity|].
    destruct (Ascii.eqb _ quote1 || Ascii.eqb _ quote2).
    - destruct (string_drop (S ci) s); [discriminate|].
      destruct (scan_string _ _); try discriminate.
      injection Hlex as _ <-; reflexivity.
    - destruct (isNumber _); [|discriminate].
      injection Hlex as _ <-; reflexivity. }
  destruct Hshape as [[Hend ->]|(s & Hs & ->)].
  - repeat split; [lia|]. intros s ch Hs. congruence.
  - cbn [strIdx charIdx]. rewrite skip_space_from.
    repeat split; [lia|]. intros s' ch Hs'. rewrite Hs in Hs'. injection Hs' as <-.
    rewrite get_string_drop. apply skip_space_stops.
Qed.

End PeekFacts.


(** X2: what [next] does after a peek. At the end of a fragment it jumps to
    the start of the next one (the token was the hole); on an operator it
    moves by the length of the matched symbol; on a string literal by the
    length of the content and two; on a numeric literal by the length of the
    text of the number's value. *)
Theorem next_moves_past_token {H : Host} ops strs vals (c c' : cursor)
    (tok : Tok) (s : string) :
  lex ops strs vals c = Ok (tok, c') ->
  nth_error strs (strIdx c) = Some s ->
  next ops strs vals c' =
  match String.get (charIdx c') s with
  | None => Ok {| strIdx := S (strIdx c'); charIdx := 0 |}
  | Some _ =>
      match tok with
      | OpTok _ raw =>
          Ok {| strIdx := strIdx c'; charIdx := charIdx c' + String.length raw |}
      | LitTok (VStr str) =>
          Ok {| strIdx := strIdx c'; charIdx := charIdx c' + (String.length str + 2) |}
      | LitTok _ =>
          Ok {| strIdx := strIdx c';
                charIdx := charIdx c'
                           + String.length
                               (num_toString
                                  (Number (scan_number (string_drop (charIdx c') s)))) |}
      end
  end.
Proof. apply next_after_lex. Qed.

(** X3: past the last fragment [next] does nothing; anywhere else, after a
    peek, it moves the cursor strictly forward, provided the token is no
    operator with an empty symbol and numbers have a text that is not
    empty. *)
Theorem next_makes_progress {H : Host} ops strs vals (c c' : cursor) (tok : Tok) :
  (forall n, num_toString n <> EmptyString) ->
  lex ops strs vals c = Ok (tok, c') ->
  (forall o, tok <> OpTok o EmptyString) ->
  match nth_error strs (strIdx c) with
  | None => next ops strs vals c' = Ok c'
  | Some _ => exists c'', next ops strs vals c' = Ok c'' /\ cursor_lt c' c''
  end.
Proof.
  intros Htext Hlex Hsym.
  destruct (nth_error strs (strIdx c)) as [s|] eqn:Hs.
  - rewrite (next_after_lex _ _ _ _ _ _ s Hlex Hs).
    pose proof (lex_position _ _ _ _ _ _ Hlex) as [_ Hpos]. rewrite Hs in Hpos.
    destruct (String.get (charIdx c') s) as [ch|].
    + destruct tok as [v|o raw].
      * destruct v; eexists; (split; [reflexivity|]); right; cbn [strIdx charIdx];
          (split; [reflexivity|]);
          try (specialize (Htext (Number (scan_number (string_drop (charIdx c') s))));
               destruct (num_toString _); [contradiction | cbn; lia]).
      * eexists. split; [reflexivity|]. right. cbn [strIdx charIdx].
        split; [reflexivity|].
        destruct raw; [exfalso; exact (Hsym o eq_refl) | cbn; lia].
    + eexists. split; [reflexivity|]. left. cbn. lia.
  - pose proof (lex_cursor _ _ _ _ _ _ Hlex) as (Hidx & _).
    unfold next. rewrite Hidx, Hs. reflexivity.
Qed.

Lemma string_of_uint_nonempty (d : Decimal.uint) :
  NilZero.string_of_uint d <> EmptyString.
Proof. destruct d; discriminate. Qed.

Lemma Z_to_string_nonempty (z : Z) : Demo.Z_to_string z <> EmptyString.
Proof.
  unfold Demo.Z_to_string, NilZero.string_of_int.
  destruct (Z.to_int z); [apply string_of_uint_nonempty | discriminate].
Qed.

Lemma demo_toString_nonempty (n : Demo.dnum) : Demo.demo_toString n <> EmptyString.
Proof.
  destruct n as [q|]; [|discriminate]. unfold Demo.demo_toString.
  destruct (Z.pos (Qden (Qred q)) =? 1)%Z; [apply Z_to_string_nonempty|].
  destruct (Qnum (Qred q) <? 0)%Z; [discriminate|].
  cbn [append].
  pose proof (Z_to_string_nonempty (Z.abs (Qnum (Qred q)) / Z.pos (Qden (Qred q)))).
  destruct (Demo.Z_to_string _); [contradiction | discriminate].
Qed.

Section PeekExamples.
Import Demo.


(** Moving past that [+]. *)
Lemma next_moves_past_token_witness :
  next default_ops ["  + 1"] [] {| strIdx := 0; charIdx := 2 |}
  = Ok {| strIdx := 0; charIdx := 3 |}.
Proof.
  refine (next_moves_past_token (H := demo_host) default_ops ["  + 1"] [] start
            {| strIdx := 0; charIdx := 2 |} (OpTok (BinaryOpSpec "+") "+")
            "  + 1" _ eq_refl).
  reflexivity.
Defined.

Lemma next_makes_progress_witness :
  exists c'',
    next default_ops ["  + 1"] [] {| strIdx := 0; charIdx := 2 |} = Ok c''
    /\ cursor_lt {| strIdx := 0; charIdx := 2 |} c''.
Proof.
  refine (next_makes_progress (H := demo_host) default_ops ["  + 1"] [] start
            {| strIdx := 0; charIdx := 2 |} (OpTok (BinaryOpSpec "+") "+")
            demo_toString_nonempty _ _).
  - reflexivity.
  - intros o. discriminate.
Defined.

End PeekExamples.

(** ** An operator without text *)

(** X4: where the token at the cursor is an operator matched by a unary spec
    with the empty symbol, no level of the parser ever returns: the primary
    parser consumes nothing and calls the parser of the last tier at the
    same place (an unbounded recursion in the source). *)
Theorem empty_unary_symbol_never_returns {H : Host} ops strs vals (c c' : cursor) :
  lex ops strs vals c = Ok (OpTok (UnaryOpSpec EmptyString) EmptyString, c') ->
  forall fuel i, parsers ops strs vals fuel i c = OutOfFuel.
Proof.
  intros Hlex fuel. revert c c' Hlex.
  induction fuel as [|f IH]; intros c c' Hlex i; [reflexivity|].
  cbn [parsers]. destruct i as [|j].
  - rewrite Hlex. cbn [bind String.eqb is_un orb].
    pose proof (lex_position _ _ _ _ _ _ Hlex) as [_ Hpos].
    destruct (nth_error strs (strIdx c)) as [s|] eqn:Hs; [|discriminate Hpos].
    destruct (String.get (charIdx c') s) as [ch|] eqn:Hch; [|discriminate Hpos].
    rewrite (next_after_lex _ _ _ _ _ _ s Hlex Hs), Hch.
    cbn [String.length bind]. rewrite Nat.add_0_r.
    replace {| strIdx := strIdx c'; charIdx := charIdx c' |} with c'
      by (destruct c'; reflexivity).
    rewrite (IH c' c' (lex_idempotent _ _ _ _ _ _ Hlex)). reflexivity.
  - rewrite (IH c c' Hlex). reflexivity.
Qed.

Section EmptySymbolExamples.
Import Demo.

(** [makeOp([[{ type: 'un', op: '' }]])] on the template [x]. *)
Lemma empty_unary_symbol_never_returns_witness :
  processOps [[inr (UnaryOpSpec EmptyString)]]
  = Ok [[UnaryOpSpec EmptyString; UnaryOpSpec "("; UnaryOpSpec ")"; UnaryOpSpec ","]]
  /\ forall fuel,
       parsers [[UnaryOpSpec EmptyString; UnaryOpSpec "("; UnaryOpSpec ")";
                 UnaryOpSpec ","]] ["x"] [] fuel 1 start
       = OutOfFuel.
Proof.
  split; [reflexivity|]. intros fuel.
  refine (empty_unary_symbol_never_returns (H := demo_host) _ ["x"] [] start start
            _ fuel 1).
  reflexivity.
Defined.

End EmptySymbolExamples.

(** ** Shadowed operators *)

Lemma prefix_trans (a b s : string) :
  String.prefix a b = true -> String.prefix b s = true -> String.prefix a s = true.
Proof.
  revert b s. induction a as [|x a IH]; intros b s.
  - intros _ _. destruct s; reflexivity.
  - destruct b as [|y b]; [destruct s; discriminate|].
    destruct s as [|z s]; [discriminate|].
    cbn. destruct (ascii_dec x y) as [->|]; [|discriminate].
    destruct (ascii_dec y z) as [->|]; [|discriminate].
    apply IH.
Qed.

Lemma symbol_at_starts (s : string) (ci : nat) (o : OpSpec) (raw : string) :
  symbol_at s ci o = Some raw -> startsWith s raw ci = true.
Proof.
  destruct o as [sym|sym|p0 p1]; cbn.
  - destruct (startsWith s sym ci) eqn:E; [intros [= <-]; exact E | discriminate].
  - destruct (startsWith s sym ci) eqn:E; [intros [= <-]; exact E | discriminate].
  - destruct (startsWith s p0 ci) eqn:E0; [intros [= <-]; exact E0|].
    destruct (startsWith s p1 ci) eqn:E1; [intros [= <-]; exact E1 | discriminate].
Qed.

Lemma mentions_symbol_at (s : string) (ci : nat) (o : OpSpec) (a : string) :
  mentions a o = true -> startsWith s a ci = true -> symbol_at s ci o <> None.
Proof.
  destruct o as [sym|sym|p0 p1]; cbn.
  - intros ->%String.eqb_eq ->. discriminate.
  - intros ->%String.eqb_eq ->. discriminate.
  - intros [->%String.eqb_eq| ->%String.eqb_eq]%orb_prop Ha.
    + rewrite Ha. discriminate.
    + rewrite Ha. destruct (startsWith s p0 ci); discriminate.
Qed.

(** X5: a spec declared behind a spec that names a prefix of its symbol is
    never the spec of a token with that symbol: whenever the scan yields a
    token whose text begins with the symbol [a], the token's spec is one
    declared no later than the spec that names [a]. *)
Theorem shadowed_operator_never_lexed (before after : list OpSpec) (o_a : OpSpec)
    (a : string) (s : string) (ci : nat) (o : OpSpec) (raw : string) :
  mentions a o_a = true ->
  String.prefix a raw = true ->
  find_op (before ++ o_a :: after) s ci = Some (o, raw) ->
  exists earlier between, before ++ [o_a] = earlier ++ o :: between.
Proof.
  intros Ha Hprefix Hfind.
  destruct (find_op_is_first _ _ _ _ _ Hfind) as (b' & a' & Hsplit & Hnone & Ho).
  assert (Hmatch : symbol_at s ci o_a <> None).
  { apply (mentions_symbol_at s ci o_a a Ha).
    unfold startsWith in *. apply (prefix_trans a raw); [exact Hprefix|].
    exact (symbol_at_starts _ _ _ _ Ho). }
  apply app_eq_app in Hsplit. destruct Hsplit as [l [[-> Hl]|[-> Hl]]].
  - destruct l as [|x l]; cbn [app] in Hl.
    + injection Hl as <- <-. exists b', []. rewrite ?app_nil_r. reflexivity.
    + injection Hl as <- ->. exists b', (l ++ [o_a]).
      rewrite <- app_assoc. reflexivity.
  - destruct l as [|x l]; cbn [app] in Hl.
    + injection Hl as <- <-. exists before, []. rewrite ?app_nil_r. reflexivity.
    + injection Hl as <- ->. exfalso. apply Hmatch.
      apply Forall_app in Hnone. destruct Hnone as [_ Hnone].
      inversion Hnone. assumption.
Qed.

(** [==] behind [=]: the token on [==] comes from the spec [=]. *)
Lemma shadowed_operator_never_lexed_witness :
  exists earlier between,
    [] ++ [BinaryOpSpec "="] = earlier ++ BinaryOpSpec "=" :: between.
Proof.
  refine (shadowed_operator_never_lexed [] [BinaryOpSpec "=="] (BinaryOpSpec "=")
            "=" "==" 0 (BinaryOpSpec "=") "=" eq_refl eq_refl eq_refl).
Defined.

(** ** Literals *)

Lemma string_drop_head (s : string) (k : nat) (ch : ascii) (r : string) :
  string_drop k s = String ch r ->
  String.get k s = Some ch /\ string_drop (S k) s = r.
Proof.
  revert s. induction k as [|k IH]; intros s.
  - cbn [string_drop]. intros ->. split; reflexivity.
  - destruct s as [|x s]; [discriminate|]. cbn [string_drop String.get]. apply IH.
Qed.

Lemma string_drop_append (a b : string) :
  string_drop (String.length a) (a ++ b) = b.
Proof. induction a as [|x a IH]; [reflexivity | exact IH]. Qed.

Lemma scan_string_closed (q : ascii) (body rest : string) :
  has_char q body = false ->
  scan_string q (body ++ String q rest) = Ok body.
Proof.
  induction body as [|ch body IH]; cbn.
  - intros _. rewrite Ascii.eqb_refl. reflexivity.
  - intros [Hch Hbody]%orb_false_elim. rewrite Hch, (IH Hbody). reflexivity.
Qed.

Lemma scan_string_open (q : ascii) (after : string) :
  has_char q after = false ->
  scan_string q after = Throw "Syntax error: unterminated string literal".
Proof.
  induction after as [|ch after IH]; cbn; [reflexivity|].
  intros [Hch Hafter]%orb_false_elim. rewrite Hch, (IH Hafter). reflexivity.
Qed.

Lemma scan_number_run {H : Host} (s : string) :
  exists rest,
    s = (scan_number s ++ rest)%string
    /\ all_in_number (scan_number s) = true
    /\ goes_on rest = false.
Proof.
  induction s as [|ch s (rest & Hs & Hall & Hrest)].
  - exists EmptyString. auto.
  - cbn [scan_number]. fold (in_number ch). destruct (in_number ch) eqn:Hch.
    + exists rest. cbn [append all_in_number]. rewrite Hch, Hall, <- Hs. auto.
    + exists (String ch s). cbn [append all_in_number goes_on]. auto.
Qed.

(** X6: a string literal is its text up to the first quote of the kind that
    opened it, with nothing escaped; [next] then lands behind that quote. *)
Theorem string_literal_content {H : Host} ops strs vals (c : cursor)
    (s : string) (q : ascii) (body rest : string) :
  let ci := skip_space (string_drop (charIdx c) s) (charIdx c) in
  let at_ n := {| strIdx := strIdx c; charIdx := n |} in
  nth_error strs (strIdx c) = Some s ->
  string_drop ci s = String q (body ++ String q rest) ->
  q = quote1 \/ q = quote2 ->
  find_op (concat ops) s ci = None ->
  has_char q body = false ->
  lex ops strs vals c = Ok (LitTok (VStr body), at_ ci)
  /\ next ops strs vals (at_ ci) = Ok (at_ (ci + (String.length body + 2)))
  /\ string_drop (ci + (String.length body + 2)) s = rest.
Proof.
  cbv zeta. intros Hs Hdrop Hq Hnone Hbody.
  set (ci := skip_space (string_drop (charIdx c) s) (charIdx c)) in *.
  destruct (string_drop_head _ _ _ _ Hdrop) as [Hget Htail].
  assert (Hlex : lex ops strs vals c
                 = Ok (LitTok (VStr body), {| strIdx := strIdx c; charIdx := ci |})).
  { unfold lex. rewrite Hs. cbv zeta. fold ci. rewrite Hget, Hnone, Htail.
    assert (Hquote : Ascii.eqb q quote1 || Ascii.eqb q quote2 = true)
      by (destruct Hq as [-> | ->]; rewrite Ascii.eqb_refl;
          [reflexivity | apply orb_true_r]).
    rewrite Hquote.
    pose proof (scan_string_closed q body rest Hbody) as Hscan.
    destruct (body ++ String q rest)%string as [|x tail] eqn:E;
      [destruct body; discriminate E|].
    rewrite Hscan. reflexivity. }
  split; [exact Hlex|]. split.
  - rewrite (next_after_lex _ _ _ _ _ _ s Hlex Hs). cbn [strIdx charIdx].
    rewrite Hget. reflexivity.
  - rewrite string_drop_add, Hdrop.
    replace (String.length body + 2) with (S (String.length body + 1)) by lia.
    cbn [string_drop]. rewrite string_drop_add, string_drop_append. reflexivity.
Qed.

(** X7: a quote with nothing behind it in its fragment is refused with
    "string literal expected", and one whose fragment holds no second quote
    of its kind with "unterminated string literal": a literal never runs
    over a hole. *)
Theorem string_literal_unclosed {H : Host} ops strs vals (c : cursor)
    (s : string) (q : ascii) (after : string) :
  let ci := skip_space (string_drop (charIdx c) s) (charIdx c) in
  nth_error strs (strIdx c) = Some s ->
  string_drop ci s = String q after ->
  q = quote1 \/ q = quote2 ->
  find_op (concat ops) s ci = None ->
  has_char q after = false ->
  lex ops strs vals c =
  Throw (match after with
         | EmptyString => "Syntax error: string literal expected"
         | _ => "Syntax error: unterminated string literal"
         end).
Proof.
  cbv zeta. intros Hs Hdrop Hq Hnone Hafter.
  set (ci := skip_space (string_drop (charIdx c) s) (charIdx c)) in *.
  destruct (string_drop_head _ _ _ _ Hdrop) as [Hget Htail].
  unfold lex. rewrite Hs. cbv zeta. fold ci. rewrite Hget, Hnone, Htail.
  assert (Hquote : Ascii.eqb q quote1 || Ascii.eqb q quote2 = true)
    by (destruct Hq as [-> | ->]; rewrite Ascii.eqb_refl;
        [reflexivity | apply orb_true_r]).
  rewrite Hquote. destruct after as [|ch after]; [reflexivity|].
  rewrite scan_string_open by exact Hafter. reflexivity.
Qed.

Section NumberFacts.
Context {H : Host}.
Variable ops : list (list OpSpec).
Variable strs : list string.
Variable vals : list (value num obj).

Lemma lex_number_start (c c' : cursor) (n : num) (s : string) (ch : ascii) :
  lex ops strs vals c = Ok (LitTok (VNum n), c') ->
  nth_error strs (strIdx c) = Some s ->
  String.get (charIdx c') s = Some ch ->
  isNumber ch = true.
Proof.
  unfold lex. intros Hlex Hs. rewrite Hs in Hlex. cbv zeta in Hlex.
  set (ci := skip_space (string_drop (charIdx c) s) (charIdx c)) in *.
  destruct (String.get ci s) as [ch0|] eqn:Hch0.
  - destruct (find_op (concat ops) s ci) as [[o raw]|]; [discriminate|].
    destruct (Ascii.eqb ch0 quote1 || Ascii.eqb ch0 quote2).
    + destruct (string_drop (S ci) s); [discriminate|].
      destruct (scan_string ch0 _); discriminate.
    + destruct (isNumber ch0) eqn:Hnum; [|discriminate].
      injection Hlex as _ <-. cbn [charIdx]. rewrite Hch0. intros [= <-]. exact Hnum.
  - injection Hlex as _ <-. cbn [charIdx]. rewrite Hch0. discriminate.
Qed.

End NumberFacts.

Lemma get_head_drop (s : string) (k : nat) (ch : ascii) :
  String.get k s = Some ch -> exists r, string_drop k s = String ch r.
Proof.
  revert s. induction k as [|k IH]; intros s; destruct s as [|x s]; try discriminate.
  - cbn. intros [= <-]. exists s. reflexivity.
  - cbn [String.get string_drop]. apply IH.
Qed.

(** X8: a numeric literal in the text is the number of the longest run of
    numeric characters at the cursor: the run is not empty, holds numeric
    characters only and is not followed by one. *)
Theorem numeric_literal_run {H : Host} ops strs vals (c c' : cursor) (n : num)
    (s : string) (ch : ascii) :
  lex ops strs vals c = Ok (LitTok (VNum n), c') ->
  nth_error strs (strIdx c) = Some s ->
  String.get (charIdx c') s = Some ch ->
  exists run rest,
    string_drop (charIdx c') s = (run ++ rest)%string
    /\ n = Number run
    /\ run <> EmptyString
    /\ all_in_number run = true
    /\ goes_on rest = false.
Proof.
  intros Hlex Hs Hch.
  pose proof (lex_position _ _ _ _ _ _ Hlex) as [_ Hpos].
  rewrite Hs, Hch in Hpos. injection Hpos as ->.
  pose proof (lex_number_start _ _ _ _ _ _ _ _ Hlex Hs Hch) as Hnum.
  destruct (lex_cursor _ _ _ _ _ _ Hlex) as (_ & _ & Hspace).
  specialize (Hspace s ch Hs Hch).
  destruct (scan_number_run (string_drop (charIdx c') s)) as (rest & Hrun & Hall & Hrest).
  exists (scan_number (string_drop (charIdx c') s)), rest.
  repeat split; try assumption.
  destruct (get_head_drop _ _ _ Hch) as [r ->].
  cbn [scan_number]. rewrite Hspace, Hnum. discriminate.
Qed.

Section LiteralExamples.
Import Demo.

(** The literal ['ab'] behind three blanks. *)
Lemma string_literal_content_witness :
  lex default_ops ["   'ab' * 2"] [] start
  = Ok (LitTok (VStr "ab"), {| strIdx := 0; charIdx := 3 |})
  /\ next default_ops ["   'ab' * 2"] [] {| strIdx := 0; charIdx := 3 |}
     = Ok {| strIdx := 0; charIdx := 7 |}
  /\ string_drop 7 "   'ab' * 2" = " * 2".
Proof.
  refine (string_literal_content (H := demo_host) default_ops ["   'ab' * 2"] []
            start "   'ab' * 2" quote1 "ab" " * 2" eq_refl eq_refl
            (or_introl eq_refl) eq_refl eq_refl).
Defined.

(** The template [A + 'asdf] of the tests. *)
Lemma string_literal_unclosed_witness :
  lex default_ops [EmptyString; " + 'asdf"] [vec_1_2_3] {| strIdx := 1; charIdx := 2 |}
  = Throw "Syntax error: unterminated string literal".
Proof.
  refine (string_literal_unclosed (H := demo_host) default_ops
            [EmptyString; " + 'asdf"] [vec_1_2_3] {| strIdx := 1; charIdx := 2 |}
            " + 'asdf" quote1 "asdf" eq_refl eq_refl (or_introl eq_refl)
            eq_refl eq_refl).
Defined.

(** The literal [12] in [12 * 3]. *)
Lemma numeric_literal_run_witness :
  exists run rest,
    string_drop 0 "12 * 3" = (run ++ rest)%string
    /\ demo_Number "12" = demo_Number run
    /\ run <> EmptyString
    /\ all_in_number run = true
    /\ goes_on rest = false.
Proof.
  refine (numeric_literal_run (H := demo_host) default_ops ["12 * 3"] [] start start
            (demo_Number "12") "12 * 3" "1"%char _ eq_refl eq_refl).
  reflexivity.
Defined.

End LiteralExamples.

(** ** The operator table, once more *)

Lemma forallb_empty_concat {A : Type} (l : list (list A)) :
  forallb (fun tier => length tier =? 0) l = true <-> concat l = [].
Proof.
  induction l as [|t l IH]; cbn; [tauto|].
  destruct t as [|x t]; cbn; [exact IH|]. split; discriminate.
Qed.

Lemma forallb_empty_map {A B : Type} (f : A -> B) (l : list (list A)) :
  forallb (fun tier => length tier =? 0) (map (map f) l)
  = forallb (fun tier => length tier =? 0) l.
Proof.
  induction l as [|t l IH]; [reflexivity|].
  cbn. rewrite length_map, IH. reflexivity.
Qed.

Lemma normalize_inr (out : list (list OpSpec)) :
  map (map normalize) (map (map inr) out) = out.
Proof.
  induction out as [|t out IH]; [reflexivity|].
  cbn [map]. rewrite IH. f_equal.
  induction t as [|o t IHt]; [reflexivity|]. cbn. rewrite IHt. reflexivity.
Qed.

Lemma find_op_app (l1 l2 : list OpSpec) (s : string) (ci : nat) :
  find_op (l1 ++ l2) s ci =
  match find_op l1 s ci with
  | Some r => Some r
  | None => find_op l2 s ci
  end.
Proof.
  induction l1 as [|o l1 IH]; [reflexivity|].
  cbn [app]. rewrite (find_op_symbol_at (o :: l1 ++ l2)), (find_op_symbol_at (o :: l1)).
  destruct (symbol_at s ci o); [reflexivity | exact IH].
Qed.

(** What [processOps] leaves: the declared specs in their order, with the
    missing structural ones behind them. *)
Lemma processOps_flat (ops : list (list (string + OpSpec))) (out : list (list OpSpec)) :
  processOps ops = Ok out ->
  let declared := concat (map (map normalize) ops) in
  declared <> []
  /\ length out = length ops
  /\ concat out = declared ++ missing_structural declared.
Proof.
  rewrite processOps_unfold.
  destruct (forallb _ ops) eqn:Hall; [discriminate|].
  cbv zeta. intros [= <-].
  assert (Hne : map (map normalize) ops <> [])
    by (destruct ops; [discriminate Hall | discriminate]).
  split; [|split].
  - intros Hnil. apply forallb_empty_concat in Hnil.
    rewrite forallb_empty_map in Hnil. congruence.
  - unfold extend_last. rewrite length_app. cbn [length].
    pose proof (app_removelast_last [] Hne) as Hsplit.
    apply (f_equal (@length _)) in Hsplit. rewrite length_app in Hsplit.
    cbn [length] in Hsplit. rewrite length_map in Hsplit. lia.
  - apply concat_extend_last, Hne.
Qed.

Lemma missing_structural_nil (all : list OpSpec) :
  (forall sym, In sym ["("; ")"; ","] -> existsb (mentions sym) all = true) ->
  missing_structural all = [].
Proof.
  intros Hall. unfold missing_structural, structural_specs. cbn [filter opName].
  rewrite (Hall "("), (Hall ")"), (Hall ",") by (cbn; auto). reflexivity.
Qed.

Lemma mentions_after_missing (all : list OpSpec) (sym : string) :
  In sym ["("; ")"; ","] ->
  existsb (mentions sym) (all ++ missing_structural all) = true.
Proof.
  intros Hsym. rewrite existsb_app.
  destruct (existsb (mentions sym) all) eqn:Hin; [reflexivity|].
  cbn [orb]. unfold missing_structural, structural_specs. cbn [filter opName].
  cbn in Hsym.
  destruct Hsym as [<-|[<-|[<-|[]]]]; rewrite Hin; cbn [negb];
    repeat match goal with
           | |- context [if negb ?b then _ else _] => destruct b; cbn [negb]
           end; reflexivity.
Qed.

(** X9: table construction is idempotent: a table it has built is accepted
    again and comes back unchanged. *)
Theorem processOps_idempotent (ops : list (list (string + OpSpec)))
    (out : list (list OpSpec)) :
  processOps ops = Ok out ->
  processOps (map (map inr) out) = Ok out.
Proof.
  intros Hout.
  destruct (processOps_flat ops out Hout) as (Hdecl & _ & Hflat).
  rewrite processOps_unfold, forallb_empty_map.
  destruct (forallb (fun tier => length tier =? 0) out) eqn:Hall.
  - apply forallb_empty_concat in Hall. rewrite Hflat in Hall.
    apply app_eq_nil in Hall. destruct Hall as [Hnil _]. contradiction.
  - cbv zeta. rewrite normalize_inr, Hflat.
    rewrite missing_structural_nil by (intros sym; apply mentions_after_missing).
    f_equal. apply extend_last_nil.
    destruct out; [discriminate Hall | discriminate].
Qed.

(** X10: construction keeps the number of tiers, and the specs it adds never
    take a token away from a declared operator: wherever a declared spec
    matches, the constructed table yields the very token the declared specs
    alone would yield. *)
Theorem processOps_keeps_declared (ops : list (list (string + OpSpec)))
    (out : list (list OpSpec)) (s : string) (ci : nat) (o : OpSpec) (raw : string) :
  processOps ops = Ok out ->
  find_op (concat (map (map normalize) ops)) s ci = Some (o, raw) ->
  length out = length ops
  /\ find_op (concat out) s ci = Some (o, raw).
Proof.
  intros Hout Hfind.
  destruct (processOps_flat ops out Hout) as (_ & Hlen & Hflat).
  split; [exact Hlen|]. rewrite Hflat, find_op_app, Hfind. reflexivity.
Qed.

(** The default table, built and built again. *)
Lemma processOps_idempotent_witness :
  processOps (map (map inr) default_ops) = Ok default_ops.
Proof. exact (processOps_idempotent default_operators default_ops eq_refl). Defined.

(** Under a table that declares ['('] as a binary operator, ['('] stays that
    operator. *)
Lemma processOps_keeps_declared_witness :
  length [[BinaryOpSpec "("; UnaryOpSpec ")"; UnaryOpSpec ","]] = length [[@inl string OpSpec "("]]
  /\ find_op (concat [[BinaryOpSpec "("; UnaryOpSpec ")"; UnaryOpSpec ","]]) "(1" 0
     = Some (BinaryOpSpec "(", "(").
Proof.
  exact (processOps_keeps_declared [[inl "("]] _ "(1" 0 (BinaryOpSpec "(") "("
           eq_refl eq_refl).
Defined.

(** ** The shape of the trees the parser builds *)


Section ParserInvariant.
Context {H : Host}.
Variable ops : list (list OpSpec).
Variable strs : list string.
Variable vals : list (value num obj).

(** A property of trees that every way of building a node keeps. *)
Variable P : ast -> Prop.
Hypothesis P_lit : forall v, v <> VUndef -> P (Lit v).
Hypothesis P_un : forall o expr, is_un o = true -> P expr -> P (Node o None expr).
Hypothesis P_bin : forall o l r, P l -> P r -> P (Node o (Some l) r).
Hypothesis P_call :
  forall o v args, v <> VUndef -> Forall P args -> P (NodeArgs o (Lit v) args).



End ParserInvariant.



Section ShapeExamples.
Import Demo.


End ShapeExamples.

(** ** Argument lists, precedence and sharp edges of the default table *)

(** X12: a comma before the closing symbol is legal: after an argument, a
    [','] followed by the closing symbol ends the list with that argument
    as its last; so under the default table [M[i,]] evaluates as [M[i]]. *)
Theorem trailing_comma_is_legal {H : Host} :
  (forall ops strs vals f operand closing args nextTok c arg c1 spec c2 c3 tok c4,
      is_closing closing nextTok = false ->
      operand c = Ok (arg, c1) ->
      lex ops strs vals c1 = Ok (OpTok spec ",", c2) ->
      next ops strs vals c2 = Ok c3 ->
      lex ops strs vals c3 = Ok (tok, c4) ->
      is_closing closing tok = true ->
      args_loop ops strs vals (S f) operand closing args nextTok c
      = Ok (args ++ [arg], tok, c4))
  /\ (forall M i k,
         M <> VUndef -> i <> VUndef ->
         makeOp default_operators (30 + k) [EmptyString; "["; ",]"] [M; i]
         = makeOp default_operators (30 + k) [EmptyString; "["; "]"] [M; i]).
Proof.
  split.
  - intros ops strs vals f operand closing args nextTok c arg c1 spec c2 c3 tok c4
      Hopen Harg Hcomma Hnext Hlex Hclose.
    cbn [args_loop]. rewrite Hopen, Harg. cbn [bind]. rewrite Hcomma. cbn [bind].
    rewrite String.eqb_refl, Hnext. cbn [bind]. rewrite Hlex. cbn [bind].
    apply args_loop_closing, Hclose.
  - intros M i k HM Hi. open_default_tag.
    destruct M; [contradiction| | | |];
      (destruct i; [contradiction| | | |]);
      run_parsers; reflexivity.
Qed.

(** X13: under the default table the tiers order the operators: [*] binds
    tighter than [+] on either side, [+] tighter than [==], and a group
    overrides the order. *)
Theorem default_precedence {H : Host} (A B C : value num obj) (k : nat) :
  A <> VUndef -> B <> VUndef -> C <> VUndef ->
  let parse strs :=
    let* '(tree, _) :=
      parsers default_ops strs [A; B; C] (30 + k) (top default_ops) start in
    Ok tree in
  let bin sym l r := Node (BinaryOpSpec sym) (Some l) r in
  parse [EmptyString; " + "; " * "; EmptyString]
  = Ok (bin "+" (Lit A) (bin "*" (Lit B) (Lit C)))
  /\ parse [EmptyString; " * "; " + "; EmptyString]
     = Ok (bin "+" (bin "*" (Lit A) (Lit B)) (Lit C))
  /\ parse [EmptyString; " == "; " + "; EmptyString]
     = Ok (bin "==" (Lit A) (bin "+" (Lit B) (Lit C)))
  /\ parse [EmptyString; " * ("; " + "; ")"]
     = Ok (bin "*" (Lit A) (bin "+" (Lit B) (Lit C))).
Proof.
  intros HA HB HC. cbv zeta.
  destruct A; [contradiction| | | |];
    (destruct B; [contradiction| | | |]);
    (destruct C; [contradiction| | | |]);
    repeat split; run_parsers; reflexivity.
Qed.

(** X14: the operand of a unary operator is read by the parser of the last
    tier, so under the default table a unary minus takes everything behind
    it: [-A + B] is [-(A + B)], and [A * -B + C] is [A * (-(B + C))]. *)
Theorem unary_operand_is_greedy {H : Host} (A B C : value num obj) (k : nat) :
  A <> VUndef -> B <> VUndef -> C <> VUndef ->
  let bin sym l r := Node (BinaryOpSpec sym) (Some l) r in
  parsers default_ops ["-"; " + "; EmptyString] [A; B] (30 + k) (top default_ops) start
  = Ok (Node (UnaryOpSpec "-") None (bin "+" (Lit A) (Lit B)),
        {| strIdx := 3; charIdx := 0 |})
  /\ parsers default_ops [EmptyString; " * -"; " + "; EmptyString] [A; B; C] (30 + k)
       (top default_ops) start
     = Ok (bin "*" (Lit A) (Node (UnaryOpSpec "-") None (bin "+" (Lit B) (Lit C))),
           {| strIdx := 4; charIdx := 0 |})
  /\ makeOp default_operators (30 + k) ["-"; " + "; EmptyString] [A; B]
     = let* sum := eval_binary "+" A B in eval_unary "-" sum.
Proof.
  intros HA HB HC. cbv zeta.
  destruct A; [contradiction| | | |];
    (destruct B; [contradiction| | | |]);
    (destruct C; [contradiction| | | |]);
    (split; [|split; [|open_default_tag]]); run_parsers; reflexivity.
Qed.

(** X15: a tier parser stores the spec of the token, the first spec of the
    table with that symbol, not the binary spec of its tier. Where a unary
    spec for [-] is declared before the binary one, [A - B] becomes a node
    with the unary spec, and its value is the unary minus of [B]: [A] is
    never looked at. *)
Theorem unary_declared_first_hides_binary {H : Host} (A B : value num obj) (k : nat) :
  A <> VUndef -> B <> VUndef ->
  processOps [[inr (UnaryOpSpec "-")]; [inl "-"]] = Ok unary_minus_first
  /\ parsers unary_minus_first [EmptyString; " - "; EmptyString] [A; B] (30 + k)
       (top unary_minus_first) start
     = Ok (Node (UnaryOpSpec "-") (Some (Lit A)) (Lit B),
           {| strIdx := 3; charIdx := 0 |})
  /\ makeOp [[inr (UnaryOpSpec "-")]; [inl "-"]] (30 + k)
       [EmptyString; " - "; EmptyString] [A; B]
     = eval_unary "-" B.
Proof.
  intros HA HB. split; [reflexivity|].
  destruct A; [contradiction| | | |];
    (destruct B; [contradiction| | | |]);
    (split; [|unfold makeOp;
              change (processOps [[inr (UnaryOpSpec "-")]; [inl "-"]])
                with (Ok unary_minus_first);
              cbn [bind]; unfold op]);
    run_parsers; reflexivity.
Qed.

(** X16: an undefined hole where an operator is due ends the tier parser
    that meets it, not the parse. Under the default table the hole is met
    by the tier of [*] and [/]: [A undefined + B] evaluates as [A + B], the
    hole passed over, while [A undefined * B] evaluates to [A], the rest
    ignored. *)
Theorem undefined_hole_between_operands {H : Host} (A B : value num obj) (k : nat) :
  A <> VUndef -> B <> VUndef ->
  makeOp default_operators (30 + k) [EmptyString; " "; " + "; EmptyString] [A; VUndef; B]
  = makeOp default_operators (30 + k) [EmptyString; " + "; EmptyString] [A; B]
  /\ makeOp default_operators (30 + k) [EmptyString; " "; " * "; EmptyString]
       [A; VUndef; B]
     = Ok A.
Proof.
  intros HA HB.
  destruct A; [contradiction| | | |];
    (destruct B; [contradiction| | | |]);
    split; open_default_tag; run_parsers; reflexivity.
Qed.

Section SharpEdgeExamples.
Import Demo.

(** The argument list of [matrix[1,]], from behind the opening bracket. *)
Lemma trailing_comma_is_legal_witness :
  let strs := [EmptyString; "["; ",]"] in
  let vals := [matrix_2_3; number 1] in
  args_loop default_ops strs vals 1
    (parsers default_ops strs vals 30 (top default_ops)) "]" []
    (LitTok (number 1)) {| strIdx := 1; charIdx := 1 |}
  = Ok ([Lit (number 1)], OpTok (FunctionOpSpec "[" "]") "]",
        {| strIdx := 2; charIdx := 1 |}).
Proof.
  cbv zeta.
  refine (proj1 (trailing_comma_is_legal (H := demo_host))
            default_ops [EmptyString; "["; ",]"] [matrix_2_3; number 1] 0
            (parsers default_ops [EmptyString; "["; ",]"] [matrix_2_3; number 1] 30
               (top default_ops))
            "]" [] (LitTok (number 1)) {| strIdx := 1; charIdx := 1 |}
            (Lit (number 1)) {| strIdx := 2; charIdx := 0 |} (UnaryOpSpec ",")
            {| strIdx := 2; charIdx := 0 |} {| strIdx := 2; charIdx := 1 |}
            (OpTok (FunctionOpSpec "[" "]") "]") {| strIdx := 2; charIdx := 1 |}
            eq_refl _ _ _ _ eq_refl); reflexivity.
Defined.

Lemma default_precedence_witness :
  (let* '(tree, _) :=
     parsers default_ops [EmptyString; " + "; " * "; EmptyString]
       [vec_1_2_3; vector_2_3_4; number 2] (30 + 0) (top default_ops) start in
   Ok tree)
  = Ok (Node (BinaryOpSpec "+") (Some (Lit vec_1_2_3))
          (Node (BinaryOpSpec "*") (Some (Lit vector_2_3_4)) (Lit (number 2)))).
Proof.
  refine (proj1 (default_precedence (H := demo_host)
                   vec_1_2_3 vector_2_3_4 (number 2) 0 _ _ _)); discriminate.
Defined.

Lemma unary_operand_is_greedy_witness :
  parsers default_ops ["-"; " + "; EmptyString] [vec_1_2_3; vector_2_3_4] (30 + 0)
    (top default_ops) start
  = Ok (Node (UnaryOpSpec "-") None
          (Node (BinaryOpSpec "+") (Some (Lit vec_1_2_3)) (Lit vector_2_3_4)),
        {| strIdx := 3; charIdx := 0 |}).
Proof.
  refine (proj1 (unary_operand_is_greedy (H := demo_host)
                   vec_1_2_3 vector_2_3_4 vector_2_3_4 0 _ _ _)); discriminate.
Defined.

Lemma unary_declared_first_hides_binary_witness :
  makeOp [[inr (UnaryOpSpec "-")]; [inl "-"]] (30 + 0)
    [EmptyString; " - "; EmptyString] [vec_1_2_3; vector_2_3_4]
  = Ok (VObj (mk Vector [-2; -3; -4]%Z)).
Proof.
  refine (eq_trans
            (proj2 (proj2 (unary_declared_first_hides_binary (H := demo_host)
                             vec_1_2_3 vector_2_3_4 0 _ _))) _);
    [discriminate | discriminate | reflexivity].
Defined.

Lemma undefined_hole_between_operands_witness :
  makeOp default_operators (30 + 0) [EmptyString; " "; " * "; EmptyString]
    [vec_1_2_3; VUndef; vector_2_3_4]
  = Ok vec_1_2_3.
Proof.
  refine (proj2 (undefined_hole_between_operands (H := demo_host)
                   vec_1_2_3 vector_2_3_4 0 _ _)); discriminate.
Defined.

End SharpEdgeExamples.

(** ** The evaluator, once more *)


(** X18: a primitive left operand can only be combined by a builtin: with a
    symbol other than [+], [-], [*] and [/] the evaluation fails at once,
    whatever operators the right operand or its type expose. *)
Theorem primitive_left_needs_builtin {H : Host} (sym : string)
    (left right : value num obj) :
  (forall l, left <> VObj l) ->
  sym <> "+" -> is_arith_symbol sym = false ->
  eval_binary sym left right
  = Throw ("Operator error: operator" ++ sym
           ++ " is not a builtin or a callable on left operand "
           ++ toErrorDisplay left)%string.
Proof.
  intros Hprim Hplus Harith. apply String.eqb_neq in Hplus.
  unfold eval_binary. rewrite Hplus, Harith.
  destruct left as [| | | |l]; try reflexivity.
  exfalso. exact (Hprim l eq_refl).
Qed.

Lemma eval_binary_v1_extends {H : Host} (sym : string) (left right v : value num obj) :
  eval_binary_v1 sym left right = Ok v -> eval_binary sym left right = Ok v.
Proof.
  unfold eval_binary_v1, eval_binary.
  destruct left as [| | | |l];
    try (destruct (String.eqb sym "+");
         [ match goal with
           | |- context [is_str_or_num ?l && is_str_or_num ?r] =>
               destruct (is_str_or_num l && is_str_or_num r)
           end; [auto | discriminate]
         | destruct (is_arith_symbol sym); [|discriminate];
           destruct right; try discriminate; auto ]).
  destruct (has_method l _); [auto | discriminate].
Qed.

(** X19: the second evaluator extends the first: every value the first
    evaluator returns for a tree, the second returns for the same tree
    with its operators read as binary specs. *)
Theorem evalOps_extends_v1 {H : Host} (node : ast_v1) (v : value num obj) :
  evalOps_v1 node = Ok v -> evalOps (upgrade node) = Ok v.
Proof.
  revert v. induction node as [v0|sym l IHl r IHr]; intros v; [auto|].
  cbn [evalOps_v1 upgrade evalOps].
  destruct (evalOps_v1 l) as [lv| | |]; try discriminate.
  destruct (evalOps_v1 r) as [rv| | |]; try discriminate.
  rewrite (IHl lv eq_refl), (IHr rv eq_refl). cbn [bind].
  apply eval_binary_v1_extends.
Qed.

Section EvaluatorExamples.
Import Demo.


(** [2 == vector] of the tests. *)
Lemma primitive_left_needs_builtin_witness :
  eval_binary "==" (number 2) vector_1_2
  = Throw "Operator error: operator== is not a builtin or a callable on left operand 2".
Proof.
  refine (eq_trans
            (primitive_left_needs_builtin (H := demo_host) "==" (number 2) vector_1_2
               _ _ eq_refl) _);
    [intros l; discriminate | discriminate | reflexivity].
Defined.

(** [vec - vector], a tree of the first evaluator. *)
Lemma evalOps_extends_v1_witness :
  evalOps (upgrade (Node_v1 "-" (Lit_v1 vec_1_2_3) (Lit_v1 vector_2_3_4)))
  = Ok (VObj (mk Vector [-1; -1; -1]%Z)).
Proof.
  refine (evalOps_extends_v1 (H := demo_host)
            (Node_v1 "-" (Lit_v1 vec_1_2_3) (Lit_v1 vector_2_3_4)) _ _).
  reflexivity.
Defined.

End EvaluatorExamples.

(** ** Groups and refused input *)

(** X20: a group adds no node: behind ['('] the parser of the last tier
    reads an expression, and that expression's own tree is the result when
    [')'] follows, the cursor moving past it; when anything else follows,
    the group is refused as unterminated. *)
Theorem group_is_transparent {H : Host} ops strs vals (f : nat)
    (c c1 c2 c3 c4 : cursor) (spec : OpSpec) (expr : ast) (cp : Tok) :
  lex ops strs vals c = Ok (OpTok spec "(", c1) ->
  next ops strs vals c1 = Ok c2 ->
  parsers ops strs vals f (top ops) c2 = Ok (expr, c3) ->
  lex ops strs vals c3 = Ok (cp, c4) ->
  parsers ops strs vals (S f) 0 c =
  if is_closing ")" cp
  then let* c5 := next ops strs vals c4 in Ok (expr, c5)
  else Throw "Syntax error: unterminated '('".
Proof.
  intros Hlex Hnext Hexpr Hcp. cbn [parsers].
  rewrite Hlex. cbn [bind String.eqb Ascii.eqb Bool.eqb]. rewrite Hnext. cbn [bind].
  rewrite Hexpr. cbn [bind]. rewrite Hcp. reflexivity.
Qed.

(** X21: what the parser refuses. A tier parser that meets, behind its
    operand, a literal that is not undefined fails with "expected operator";
    the primary parser fails with "expected value" on an operator token
    that is neither ['('] nor a symbol declared as unary; and a failure at
    one level is the failure of every level above it. *)
Theorem refused_input {H : Host} ops strs vals :
  (forall f j c l c1 v c2,
      parsers ops strs vals f j c = Ok (l, c1) ->
      lex ops strs vals c1 = Ok (LitTok v, c2) ->
      v <> VUndef ->
      parsers ops strs vals (S f) (S j) c = Throw "Syntax error: expected operator")
  /\ (forall f c spec raw c1,
         lex ops strs vals c = Ok (OpTok spec raw, c1) ->
         raw <> "(" ->
         is_un spec = false ->
         existsb (is_un_named raw) (concat ops) = false ->
         parsers ops strs vals (S f) 0 c = Throw "Syntax error: expected value")
  /\ (forall f j c msg,
         parsers ops strs vals f j c = Throw msg ->
         parsers ops strs vals (S f) (S j) c = Throw msg).
Proof.
  split; [|split].
  - intros f j c l c1 v c2 Hl Hlex Hv. cbn [parsers].
    rewrite Hl. cbn [bind]. rewrite Hlex. cbn [bind].
    destruct v; [contradiction|reflexivity..].
  - intros f c spec raw c1 Hlex Hparen Hspec Hun. cbn [parsers].
    rewrite Hlex. cbn [bind]. apply String.eqb_neq in Hparen.
    rewrite Hparen, Hspec, Hun. reflexivity.
  - intros f j c msg Hfail. cbn [parsers]. rewrite Hfail. reflexivity.
Qed.

Section RefusedExamples.
Import Demo.

(** [(vec] without its closing parenthesis. *)
Lemma group_is_transparent_witness :
  parsers default_ops ["("; EmptyString] [vec_1_2_3] 31 0 start
  = Throw "Syntax error: unterminated '('".
Proof.
  refine (group_is_transparent (H := demo_host) default_ops ["("; EmptyString]
            [vec_1_2_3] 30 start start {| strIdx := 0; charIdx := 1 |}
            {| strIdx := 2; charIdx := 0 |} {| strIdx := 2; charIdx := 0 |}
            (FunctionOpSpec "(" ")") (Lit vec_1_2_3) (LitTok VUndef) _ _ _ _);
    reflexivity.
Defined.

(** [vec 2] of the tests. *)
Lemma refused_input_witness :
  parsers default_ops [EmptyString; " 2"] [vec_1_2_3] 2 1 start
  = Throw "Syntax error: expected operator".
Proof.
  refine (proj1 (refused_input (H := demo_host) default_ops [EmptyString; " 2"]
                   [vec_1_2_3])
            1 0 start (Lit vec_1_2_3) {| strIdx := 1; charIdx := 1 |}
            (number 2) {| strIdx := 1; charIdx := 1 |} _ _ _);
    [reflexivity | reflexivity | discriminate].
Defined.

End RefusedExamples.

(** ** The two lexers *)

Lemma find_app_first {A : Type} (f : A -> bool) (l1 l2 : list A) :
  find f (l1 ++ l2) = match find f l1 with Some x => Some x | None => find f l2 end.
Proof.
  induction l1 as [|x l1 IH]; [reflexivity|].
  cbn. destruct (f x); [reflexivity | exact IH].
Qed.

Lemma declared_of_symbols (ops : list (list string)) :
  concat (map (map normalize) (map (map inl) ops)) = map BinaryOpSpec (concat ops).
Proof.
  induction ops as [|t ops IH]; [reflexivity|].
  cbn [map concat]. rewrite IH, map_app. f_equal.
  induction t as [|x t IHt]; [reflexivity|]. cbn. rewrite IHt. reflexivity.
Qed.

Lemma find_op_symbols (syms : list string) (s : string) (ci : nat) :
  find_op (map BinaryOpSpec syms) s ci =
  match find (fun sym => startsWith s sym ci) syms with
  | Some sym => Some (BinaryOpSpec sym, sym)
  | None => None
  end.
Proof.
  induction syms as [|x syms IH]; [reflexivity|].
  cbn [map find_op find]. destruct (startsWith s x ci); [reflexivity | exact IH].
Qed.

Lemma unmatched_symbol_undeclared (syms : list string) (s : string) (ci : nat)
    (x : string) :
  find (fun sym => startsWith s sym ci) syms = None ->
  startsWith s x ci = true ->
  existsb (mentions x) (map BinaryOpSpec syms) = false
  /\ existsb (String.eqb x) syms = false.
Proof.
  intros Hnone Hx. induction syms as [|y syms IH]; [auto|].
  cbn [find] in Hnone. destruct (startsWith s y ci) eqn:Hy; [discriminate|].
  destruct (IH Hnone) as [IH1 IH2].
  cbn [map existsb mentions]. rewrite IH1, IH2.
  destruct (String.eqb y x) eqn:Eyx.
  - apply String.eqb_eq in Eyx. congruence.
  - rewrite String.eqb_sym, Eyx. auto.
Qed.

Lemma matched_symbol_declared (syms : list string) (s : string) (ci : nat)
    (x : string) :
  find (fun sym => startsWith s sym ci) syms = Some x ->
  existsb (String.eqb x) syms = true.
Proof.
  intros Hfind. apply find_some in Hfind. destruct Hfind as [Hin _].
  apply existsb_exists. exists x. split; [exact Hin | apply String.eqb_refl].
Qed.

(** What the structural specs add to the scan when no declared symbol
    matches and the text does not go on with a comma. *)
Lemma find_op_structural (syms : list string) (s : string) (ci : nat) :
  find (fun sym => startsWith s sym ci) syms = None ->
  startsWith s "," ci = false ->
  find_op (missing_structural (map BinaryOpSpec syms)) s ci =
  match find (fun sym => startsWith s sym ci) ["("; ")"] with
  | Some sym => Some (UnaryOpSpec sym, sym)
  | None => None
  end.
Proof.
  intros Hnone Hcomma.
  unfold missing_structural, structural_specs. cbn [filter opName find].
  destruct (startsWith s "(" ci) eqn:Hopen.
  - destruct (unmatched_symbol_undeclared syms s ci "(" Hnone Hopen) as [-> _].
    cbn [negb find_op]. rewrite Hopen. reflexivity.
  - destruct (startsWith s ")" ci) eqn:Hclose.
    + destruct (unmatched_symbol_undeclared syms s ci ")" Hnone Hclose) as [-> _].
      cbn [negb].
      destruct (negb (existsb (mentions "(") (map BinaryOpSpec syms)));
        cbn [find_op]; rewrite ?Hopen, Hclose; reflexivity.
    + repeat match goal with
             | |- context [if negb ?b then _ else _] => destruct (negb b)
             end;
        cbn [find_op]; rewrite ?Hopen, ?Hclose, ?Hcomma; reflexivity.
Qed.

(** X22: on a table of bare symbols the second lexer yields, token for
    token and with the same cursor and the same errors, what the first
    lexer yields, wherever the text at the cursor does not begin with a
    comma (which only the second lexer knows as a token). *)
Theorem lex_agrees_with_v1 {H : Host} (ops : list (list string))
    (out : list (list OpSpec)) strs vals (c : cursor) :
  processOps (map (map inl) ops) = Ok out ->
  (forall s,
      nth_error strs (strIdx c) = Some s ->
      startsWith s "," (skip_space (string_drop (charIdx c) s) (charIdx c)) = false) ->
  lex out strs vals c =
  let* '(tok, c') := lex_v1 ops strs vals c in Ok (token_of ops tok, c').
Proof.
  intros Hout Hcomma.
  destruct (processOps_flat _ _ Hout) as (_ & _ & Hflat).
  cbv zeta in Hflat. rewrite declared_of_symbols in Hflat.
  unfold lex, lex_v1. rewrite Hflat.
  destruct (nth_error strs (strIdx c)) as [s|] eqn:Hs; [|reflexivity].
  specialize (Hcomma s eq_refl). cbv zeta.
  set (ci := skip_space (string_drop (charIdx c) s) (charIdx c)) in *.
  destruct (String.get ci s) as [ch|]; [|reflexivity].
  rewrite find_op_app, find_op_symbols, find_app_first.
  destruct (find (fun sym => startsWith s sym ci) (concat ops)) as [sym|] eqn:Huser.
  - cbn [bind token_of]. rewrite (matched_symbol_declared _ _ _ _ Huser). reflexivity.
  - rewrite (find_op_structural _ _ _ Huser Hcomma).
    destruct (find (fun sym => startsWith s sym ci) ["("; ")"]) as [sym|] eqn:Hstruct.
    + cbn [bind token_of].
      assert (Hsym : startsWith s sym ci = true)
        by (apply find_some in Hstruct; tauto).
      destruct (unmatched_symbol_undeclared _ _ _ sym Huser Hsym) as [_ ->].
      reflexivity.
    + destruct (Ascii.eqb ch quote1 || Ascii.eqb ch quote2).
      * destruct (string_drop (S ci) s); [reflexivity|].
        destruct (scan_string ch _); reflexivity.
      * destruct (isNumber ch); reflexivity.
Qed.

Section TwoLexersExamples.
Import Demo.

(** [*] under the table of the first [op] tag. *)
Lemma lex_agrees_with_v1_witness :
  lex [[BinaryOpSpec "*"; BinaryOpSpec "/"]; [BinaryOpSpec "+"; BinaryOpSpec "-"];
       [BinaryOpSpec "=="; BinaryOpSpec "!="; UnaryOpSpec "("; UnaryOpSpec ")";
        UnaryOpSpec ","]]
    [EmptyString; " * 2"] [vec_1_2_3] {| strIdx := 1; charIdx := 0 |}
  = Ok (OpTok (BinaryOpSpec "*") "*", {| strIdx := 1; charIdx := 1 |}).
Proof.
  refine (eq_trans
            (lex_agrees_with_v1 (H := demo_host)
               [["*"; "/"]; ["+"; "-"]; ["=="; "!="]] _
               [EmptyString; " * 2"] [vec_1_2_3] {| strIdx := 1; charIdx := 0 |}
               eq_refl _) _).
  - intros s [= <-]. reflexivity.
  - reflexivity.
Defined.

End TwoLexersExamples.
